(** * go-bytesize: byte sizes, their parser and their localized formatter

    A shallow embedding of package [bytesize] (file [bytesize.go]) and
    of the parts of the Go runtime and standard library it calls, followed
    by the properties of the package that its specification states.

    Conventions.  A Go [string] is a sequence of bytes, here a [string] of
    Rocq whose characters are the bytes of the UTF-8 text.  A [rune], a
    [uint64] and an [int] are integers of [Z]; where Go wraps around or
    leaves a conversion to the implementation this is written out.  A
    [float64] is a [spec_float] of the standard library at precision 53
    and maximal exponent 1024.  A Go [map] is a [gmap]. *)

From Stdlib Require Import ZArith String Ascii List Lia DecimalString.
From Stdlib Require Import Floats.SpecFloat.
From stdpp Require Import gmap strings list fin_maps.

Local Open Scope Z_scope.

(** ** Package [unicode/utf8] *)

Module utf8.

Definition RuneError : Z := 0xFFFD.
Definition RuneSelf : Z := 0x80.
Definition MaxRune : Z := 0x10FFFF.

(** The value of a byte of a string. *)
Definition byte_val (c : ascii) : Z := Z.of_N (N_of_ascii c).

(** [s[i]], with 0 past the end (the callers check the length first). *)
Definition at_index (s : string) (i : nat) : Z :=
  match String.get i s with
  | Some c => byte_val c
  | None => 0
  end.

(** The table [first] together with [acceptRanges]: for a leading byte
    of a multi-byte encoding, the size of the encoding and the range the
    second byte has to lie in; [None] for the bytes that start nothing
    (the table's [xx]).  ASCII bytes are handled before the table is
    consulted. *)
Definition first (s0 : Z) : option (nat * Z * Z) :=
  if (0xC2 <=? s0) && (s0 <=? 0xDF) then Some (2%nat, 0x80, 0xBF)
  else if s0 =? 0xE0 then Some (3%nat, 0xA0, 0xBF)
  else if (0xE1 <=? s0) && (s0 <=? 0xEC) then Some (3%nat, 0x80, 0xBF)
  else if s0 =? 0xED then Some (3%nat, 0x80, 0x9F)
  else if (0xEE <=? s0) && (s0 <=? 0xEF) then Some (3%nat, 0x80, 0xBF)
  else if s0 =? 0xF0 then Some (4%nat, 0x90, 0xBF)
  else if (0xF1 <=? s0) && (s0 <=? 0xF3) then Some (4%nat, 0x80, 0xBF)
  else if s0 =? 0xF4 then Some (4%nat, 0x80, 0x8F)
  else None.

Definition locb : Z := 0x80.
Definition hicb : Z := 0xBF.

(** [utf8.DecodeRuneInString]: the first rune of [s] and its width in
    bytes; an invalid encoding yields [(RuneError, 1)], the empty string
    [(RuneError, 0)]. *)
Definition DecodeRuneInString (s : string) : Z * nat :=
  let n := String.length s in
  if (n <? 1)%nat then (RuneError, 0%nat)
  else
    let s0 := at_index s 0 in
    if s0 <? RuneSelf then (s0, 1%nat)
    else
      match first s0 with
      | None => (RuneError, 1%nat)
      | Some (sz, lo, hi) =>
          if (n <? sz)%nat then (RuneError, 1%nat)
          else
            let s1 := at_index s 1 in
            if (s1 <? lo) || (hi <? s1) then (RuneError, 1%nat)
            else if (sz <=? 2)%nat then
              (Z.lor (Z.shiftl (Z.land s0 0x1F) 6) (Z.land s1 0x3F), 2%nat)
            else
              let s2 := at_index s 2 in
              if (s2 <? locb) || (hicb <? s2) then (RuneError, 1%nat)
              else if (sz <=? 3)%nat then
                (Z.lor (Z.lor (Z.shiftl (Z.land s0 0x0F) 12)
                              (Z.shiftl (Z.land s1 0x3F) 6))
                       (Z.land s2 0x3F), 3%nat)
              else
                let s3 := at_index s 3 in
                if (s3 <? locb) || (hicb <? s3) then (RuneError, 1%nat)
                else
                  (Z.lor (Z.lor (Z.lor (Z.shiftl (Z.land s0 0x07) 18)
                                       (Z.shiftl (Z.land s1 0x3F) 12))
                                (Z.shiftl (Z.land s2 0x3F) 6))
                         (Z.land s3 0x3F), 4%nat)
      end.

Definition byte_of (b : Z) : ascii := ascii_of_N (Z.to_N b).

(** [utf8.AppendRune] on an empty buffer: the UTF-8 encoding of [r];
    a rune that is out of range or a surrogate half is encoded as
    [RuneError]. *)
Definition EncodeRune (r : Z) : string :=
  let enc3 (r : Z) :=
    String (byte_of (Z.lor 0xE0 (Z.shiftr r 12)))
      (String (byte_of (Z.lor 0x80 (Z.land (Z.shiftr r 6) 0x3F)))
         (String (byte_of (Z.lor 0x80 (Z.land r 0x3F))) EmptyString)) in
  if (0 <=? r) && (r <? 0x80) then String (byte_of r) EmptyString
  else if (0 <=? r) && (r <? 0x800) then
    String (byte_of (Z.lor 0xC0 (Z.shiftr r 6)))
      (String (byte_of (Z.lor 0x80 (Z.land r 0x3F))) EmptyString)
  else if (r <? 0) || (MaxRune <? r) || ((0xD800 <=? r) && (r <=? 0xDFFF))
  then enc3 RuneError
  else if r <? 0x10000 then enc3 r
  else
    String (byte_of (Z.lor 0xF0 (Z.shiftr r 18)))
      (String (byte_of (Z.lor 0x80 (Z.land (Z.shiftr r 12) 0x3F)))
         (String (byte_of (Z.lor 0x80 (Z.land (Z.shiftr r 6) 0x3F)))
            (String (byte_of (Z.lor 0x80 (Z.land r 0x3F))) EmptyString))).

End utf8.

(** ** The [range] clause over a string *)

(** [for i, r := range s] visits the runes of [s] from left to right and
    yields, for each, the index of its first byte and its value.  The
    traversal below walks the bytes; [skip] counts the bytes that still
    belong to the rune decoded last. *)
Fixpoint range_from (s : string) (i skip : nat) : list (nat * Z) :=
  match s with
  | EmptyString => []
  | String _ s' =>
      match skip with
      | S k => range_from s' (S i) k
      | O =>
          let '(r, w) := utf8.DecodeRuneInString s in
          (i, r) :: range_from s' (S i) (Nat.pred w)
      end
  end.

Definition range_string (s : string) : list (nat * Z) := range_from s 0 0.

(** The slice expression [s[lo:hi]]. *)
Definition slice (s : string) (lo hi : nat) : string :=
  String.substring lo (hi - lo) s.

(** ** Package [unicode] *)

Module unicode.

Definition MaxASCII : Z := 0x7F.
Definition MaxLatin1 : Z := 0xFF.

Definition in_ranges (tab : list (Z * Z)) (r : Z) : bool :=
  existsb (fun '(lo, hi) => (lo <=? r) && (r <=? hi)) tab.

(** The range table [unicode.Nd] (decimal digits) above Latin-1, as of
    Unicode 15.0.0. *)
Definition Nd : list (Z * Z) := [
  (0x660, 0x669); (0x6F0, 0x6F9); (0x7C0, 0x7C9); (0x966, 0x96F);
  (0x9E6, 0x9EF); (0xA66, 0xA6F); (0xAE6, 0xAEF); (0xB66, 0xB6F);
  (0xBE6, 0xBEF); (0xC66, 0xC6F); (0xCE6, 0xCEF); (0xD66, 0xD6F);
  (0xDE6, 0xDEF); (0xE50, 0xE59); (0xED0, 0xED9); (0xF20, 0xF29);
  (0x1040, 0x1049); (0x1090, 0x1099); (0x17E0, 0x17E9); (0x1810, 0x1819);
  (0x1946, 0x194F); (0x19D0, 0x19D9); (0x1A80, 0x1A89); (0x1A90, 0x1A99);
  (0x1B50, 0x1B59); (0x1BB0, 0x1BB9); (0x1C40, 0x1C49); (0x1C50, 0x1C59);
  (0xA620, 0xA629); (0xA8D0, 0xA8D9); (0xA900, 0xA909); (0xA9D0, 0xA9D9);
  (0xA9F0, 0xA9F9); (0xAA50, 0xAA59); (0xABF0, 0xABF9); (0xFF10, 0xFF19);
  (0x104A0, 0x104A9); (0x10D30, 0x10D39); (0x11066, 0x1106F); (0x110F0, 0x110F9);
  (0x11136, 0x1113F); (0x111D0, 0x111D9); (0x112F0, 0x112F9); (0x11450, 0x11459);
  (0x114D0, 0x114D9); (0x11650, 0x11659); (0x116C0, 0x116C9); (0x11730, 0x11739);
  (0x118E0, 0x118E9); (0x11950, 0x11959); (0x11C50, 0x11C59); (0x11D50, 0x11D59);
  (0x11DA0, 0x11DA9); (0x11F50, 0x11F59); (0x16A60, 0x16A69); (0x16AC0, 0x16AC9);
  (0x16B50, 0x16B59); (0x1D7CE, 0x1D7FF); (0x1E140, 0x1E149); (0x1E2F0, 0x1E2F9);
  (0x1E4F0, 0x1E4F9); (0x1E950, 0x1E959); (0x1FBF0, 0x1FBF9) ].

(** [unicode.IsDigit]. *)
Definition IsDigit (r : Z) : bool :=
  if r <=? MaxLatin1 then (48 <=? r) && (r <=? 57)
  else in_ranges Nd r.

(** The range table [unicode.White_Space] above Latin-1. *)
Definition White_Space : list (Z * Z) := [
  (0x1680, 0x1680); (0x2000, 0x200A); (0x2028, 0x2029); (0x202F, 0x202F);
  (0x205F, 0x205F); (0x3000, 0x3000) ].

(** [unicode.IsSpace]: within Latin-1 the characters tab, line feed,
    vertical tab, form feed, carriage return, space, U+0085 and U+00A0. *)
Definition IsSpace (r : Z) : bool :=
  if (0 <=? r) && (r <=? MaxLatin1) then
    ((9 <=? r) && (r <=? 13)) || (r =? 32) || (r =? 0x85) || (r =? 0xA0)
  else in_ranges White_Space r.

(** The upper-case column of [unicode.CaseRanges] above ASCII, as of
    Unicode 15.0.0 (simple case mappings): an entry [(lo, hi, stride,
    delta)] moves the runes [lo], [lo + stride], ..., [hi] by [delta]. *)
Definition upperRanges : list (Z * Z * Z * Z) := [
  (0xB5, 0xB5, 1, 743); (0xE0, 0xF6, 1, -32); (0xF8, 0xFE, 1, -32);
  (0xFF, 0xFF, 1, 121); (0x101, 0x12F, 2, -1); (0x131, 0x131, 1, -232);
  (0x133, 0x137, 2, -1); (0x13A, 0x148, 2, -1); (0x14B, 0x177, 2, -1);
  (0x17A, 0x17E, 2, -1); (0x17F, 0x17F, 1, -300); (0x180, 0x180, 1, 195);
  (0x183, 0x185, 2, -1); (0x188, 0x188, 1, -1); (0x18C, 0x18C, 1, -1);
  (0x192, 0x192, 1, -1); (0x195, 0x195, 1, 97); (0x199, 0x199, 1, -1);
  (0x19A, 0x19A, 1, 163); (0x19E, 0x19E, 1, 130); (0x1A1, 0x1A5, 2, -1);
  (0x1A8, 0x1A8, 1, -1); (0x1AD, 0x1AD, 1, -1); (0x1B0, 0x1B0, 1, -1);
  (0x1B4, 0x1B6, 2, -1); (0x1B9, 0x1B9, 1, -1); (0x1BD, 0x1BD, 1, -1);
  (0x1BF, 0x1BF, 1, 56); (0x1C5, 0x1C5, 1, -1); (0x1C6, 0x1C6, 1, -2);
  (0x1C8, 0x1C8, 1, -1); (0x1C9, 0x1C9, 1, -2); (0x1CB, 0x1CB, 1, -1);
  (0x1CC, 0x1CC, 1, -2); (0x1CE, 0x1DC, 2, -1); (0x1DD, 0x1DD, 1, -79);
  (0x1DF, 0x1EF, 2, -1); (0x1F2, 0x1F2, 1, -1); (0x1F3, 0x1F3, 1, -2);
  (0x1F5, 0x1F5, 1, -1); (0x1F9, 0x21F, 2, -1); (0x223, 0x233, 2, -1);
  (0x23C, 0x23C, 1, -1); (0x23F, 0x240, 1, 10815); (0x242, 0x242, 1, -1);
  (0x247, 0x24F, 2, -1); (0x250, 0x250, 1, 10783); (0x251, 0x251, 1, 10780);
  (0x252, 0x252, 1, 10782); (0x253, 0x253, 1, -210); (0x254, 0x254, 1, -206);
  (0x256, 0x257, 1, -205); (0x259, 0x259, 1, -202); (0x25B, 0x25B, 1, -203);
  (0x25C, 0x25C, 1, 42319); (0x260, 0x260, 1, -205); (0x261, 0x261, 1, 42315);
  (0x263, 0x263, 1, -207); (0x265, 0x265, 1, 42280); (0x266, 0x266, 1, 42308);
  (0x268, 0x268, 1, -209); (0x269, 0x269, 1, -211); (0x26A, 0x26A, 1, 42308);
  (0x26B, 0x26B, 1, 10743); (0x26C, 0x26C, 1, 42305); (0x26F, 0x26F, 1, -211);
  (0x271, 0x271, 1, 10749); (0x272, 0x272, 1, -213); (0x275, 0x275, 1, -214);
  (0x27D, 0x27D, 1, 10727); (0x280, 0x280, 1, -218); (0x282, 0x282, 1, 42307);
  (0x283, 0x283, 1, -218); (0x287, 0x287, 1, 42282); (0x288, 0x288, 1, -218);
  (0x289, 0x289, 1, -69); (0x28A, 0x28B, 1, -217); (0x28C, 0x28C, 1, -71);
  (0x292, 0x292, 1, -219); (0x29D, 0x29D, 1, 42261); (0x29E, 0x29E, 1, 42258);
  (0x345, 0x345, 1, 84); (0x371, 0x373, 2, -1); (0x377, 0x377, 1, -1);
  (0x37B, 0x37D, 1, 130); (0x3AC, 0x3AC, 1, -38); (0x3AD, 0x3AF, 1, -37);
  (0x3B1, 0x3C1, 1, -32); (0x3C2, 0x3C2, 1, -31); (0x3C3, 0x3CB, 1, -32);
  (0x3CC, 0x3CC, 1, -64); (0x3CD, 0x3CE, 1, -63); (0x3D0, 0x3D0, 1, -62);
  (0x3D1, 0x3D1, 1, -57); (0x3D5, 0x3D5, 1, -47); (0x3D6, 0x3D6, 1, -54);
  (0x3D7, 0x3D7, 1, -8); (0x3D9, 0x3EF, 2, -1); (0x3F0, 0x3F0, 1, -86);
  (0x3F1, 0x3F1, 1, -80); (0x3F2, 0x3F2, 1, 7); (0x3F3, 0x3F3, 1, -116);
  (0x3F5, 0x3F5, 1, -96); (0x3F8, 0x3F8, 1, -1); (0x3FB, 0x3FB, 1, -1);
  (0x430, 0x44F, 1, -32); (0x450, 0x45F, 1, -80); (0x461, 0x481, 2, -1);
  (0x48B, 0x4BF, 2, -1); (0x4C2, 0x4CE, 2, -1); (0x4CF, 0x4CF, 1, -15);
  (0x4D1, 0x52F, 2, -1); (0x561, 0x586, 1, -48); (0x10D0, 0x10FA, 1, 3008);
  (0x10FD, 0x10FF, 1, 3008); (0x13F8, 0x13FD, 1, -8); (0x1C80, 0x1C80, 1, -6254);
  (0x1C81, 0x1C81, 1, -6253); (0x1C82, 0x1C82, 1, -6244); (0x1C83, 0x1C84, 1, -6242);
  (0x1C85, 0x1C85, 1, -6243); (0x1C86, 0x1C86, 1, -6236); (0x1C87, 0x1C87, 1, -6181);
  (0x1C88, 0x1C88, 1, 35266); (0x1D79, 0x1D79, 1, 35332); (0x1D7D, 0x1D7D, 1, 3814);
  (0x1D8E, 0x1D8E, 1, 35384); (0x1E01, 0x1E95, 2, -1); (0x1E9B, 0x1E9B, 1, -59);
  (0x1EA1, 0x1EFF, 2, -1); (0x1F00, 0x1F07, 1, 8); (0x1F10, 0x1F15, 1, 8);
  (0x1F20, 0x1F27, 1, 8); (0x1F30, 0x1F37, 1, 8); (0x1F40, 0x1F45, 1, 8);
  (0x1F51, 0x1F57, 2, 8); (0x1F60, 0x1F67, 1, 8); (0x1F70, 0x1F71, 1, 74);
  (0x1F72, 0x1F75, 1, 86); (0x1F76, 0x1F77, 1, 100); (0x1F78, 0x1F79, 1, 128);
  (0x1F7A, 0x1F7B, 1, 112); (0x1F7C, 0x1F7D, 1, 126); (0x1F80, 0x1F87, 1, 8);
  (0x1F90, 0x1F97, 1, 8); (0x1FA0, 0x1FA7, 1, 8); (0x1FB0, 0x1FB1, 1, 8);
  (0x1FB3, 0x1FB3, 1, 9); (0x1FBE, 0x1FBE, 1, -7205); (0x1FC3, 0x1FC3, 1, 9);
  (0x1FD0, 0x1FD1, 1, 8); (0x1FE0, 0x1FE1, 1, 8); (0x1FE5, 0x1FE5, 1, 7);
  (0x1FF3, 0x1FF3, 1, 9); (0x214E, 0x214E, 1, -28); (0x2170, 0x217F, 1, -16);
  (0x2184, 0x2184, 1, -1); (0x24D0, 0x24E9, 1, -26); (0x2C30, 0x2C5F, 1, -48);
  (0x2C61, 0x2C61, 1, -1); (0x2C65, 0x2C65, 1, -10795); (0x2C66, 0x2C66, 1, -10792);
  (0x2C68, 0x2C6C, 2, -1); (0x2C73, 0x2C73, 1, -1); (0x2C76, 0x2C76, 1, -1);
  (0x2C81, 0x2CE3, 2, -1); (0x2CEC, 0x2CEE, 2, -1); (0x2CF3, 0x2CF3, 1, -1);
  (0x2D00, 0x2D25, 1, -7264); (0x2D27, 0x2D27, 1, -7264); (0x2D2D, 0x2D2D, 1, -7264);
  (0xA641, 0xA66D, 2, -1); (0xA681, 0xA69B, 2, -1); (0xA723, 0xA72F, 2, -1);
  (0xA733, 0xA76F, 2, -1); (0xA77A, 0xA77C, 2, -1); (0xA77F, 0xA787, 2, -1);
  (0xA78C, 0xA78C, 1, -1); (0xA791, 0xA793, 2, -1); (0xA794, 0xA794, 1, 48);
  (0xA797, 0xA7A9, 2, -1); (0xA7B5, 0xA7C3, 2, -1); (0xA7C8, 0xA7CA, 2, -1);
  (0xA7D1, 0xA7D1, 1, -1); (0xA7D7, 0xA7D9, 2, -1); (0xA7F6, 0xA7F6, 1, -1);
  (0xAB53, 0xAB53, 1, -928); (0xAB70, 0xABBF, 1, -38864); (0xFF41, 0xFF5A, 1, -32);
  (0x10428, 0x1044F, 1, -40); (0x104D8, 0x104FB, 1, -40); (0x10597, 0x105A1, 1, -39);
  (0x105A3, 0x105B1, 1, -39); (0x105B3, 0x105B9, 1, -39); (0x105BB, 0x105BC, 1, -39);
  (0x10CC0, 0x10CF2, 1, -64); (0x118C0, 0x118DF, 1, -32); (0x16E60, 0x16E7F, 1, -32);
  (0x1E922, 0x1E943, 1, -34) ].

Definition to_upper_in (tab : list (Z * Z * Z * Z)) (r : Z) : Z :=
  match
    find (fun '(lo, hi, stride, _) =>
            (lo <=? r) && (r <=? hi) && ((r - lo) mod stride =? 0)) tab
  with
  | Some (_, _, _, delta) => r + delta
  | None => r
  end.

(** [unicode.ToUpper]. *)
Definition ToUpper (r : Z) : Z :=
  if r <=? MaxASCII then
    if (97 <=? r) && (r <=? 122) then r - 32 else r
  else to_upper_in upperRanges r.

End unicode.

(** ** Package [strings] *)

Module strings.

(** The index at which the leading white space of [s] ends. *)
Fixpoint leading (rs : list (nat * Z)) (n : nat) : nat :=
  match rs with
  | [] => n
  | (i, r) :: rest => if unicode.IsSpace r then leading rest n else i
  end.

(** The index at which the trailing white space of [s] starts: the
    first rune from which on every rune is white space. *)
Fixpoint trailing (rs : list (nat * Z)) (n : nat) : nat :=
  match rs with
  | [] => n
  | (i, r) :: rest =>
      if forallb (fun p => unicode.IsSpace (snd p)) rs then i
      else trailing rest n
  end.

(** [strings.TrimSpace]: [s] without its leading and trailing white
    space, as defined by Unicode. *)
Definition TrimSpace (s : string) : string :=
  let rs := range_string s in
  let n := String.length s in
  slice s (leading rs n) (trailing rs n).

Definition concat_strings (l : list string) : string :=
  fold_right String.append EmptyString l.

(** [strings.ToUpper]: every rune mapped to its upper case; a byte that
    is not part of a valid encoding comes out as the encoding of
    [utf8.RuneError]. *)
Definition ToUpper (s : string) : string :=
  concat_strings
    (List.map (fun p => utf8.EncodeRune (unicode.ToUpper (snd p)))
       (range_string s)).

End strings.

(** ** Results of calls, and the type [error] *)

(** What a call does: it returns, it panics, or it leaves the part of
    the standard library that is embedded here (only [fmt.Sprintf] can,
    see below). *)
Inductive outcome (A : Type) : Type :=
| Returns (a : A)
| Panics
| Unmodelled.

Arguments Returns {A} a.
Arguments Panics {A}.
Arguments Unmodelled {A}.

Definition bind {A B : Type} (x : outcome A) (k : A -> outcome B) : outcome B :=
  match x with
  | Returns a => k a
  | Panics => Panics
  | Unmodelled => Unmodelled
  end.

(** The values of Go's interface [error] that the package returns: the
    ones made by [errors.New] and the [*strconv.NumError] of the number
    parser. *)
Inductive error : Type :=
| errorString (s : string)
| NumError (Func Num : string) (Err : error).

(** ** The type [float64] and its conversions *)

Module float64.

Definition prec : Z := 53.
Definition emax : Z := 1024.

Definition zero : spec_float := S754_zero false.

(** Conversion of an integer to [float64], rounding to nearest even. *)
Definition of_Z (n : Z) : spec_float := binary_normalize prec emax n 0 false.

Definition one : spec_float := Eval vm_compute in of_Z 1.

Definition mul : spec_float -> spec_float -> spec_float := SFmul prec emax.
Definition div : spec_float -> spec_float -> spec_float := SFdiv prec emax.
Definition sub : spec_float -> spec_float -> spec_float := SFsub prec emax.

(** The integer part of a finite number (truncation toward zero). *)
Definition trunc (x : spec_float) : option Z :=
  match x with
  | S754_zero _ => Some 0
  | S754_finite s m e =>
      let a := Z.shiftl (Z.pos m) e in Some (if s then - a else a)
  | S754_infinity _ | S754_nan => None
  end.

Definition min_int64 : Z := - 2 ^ 63.

(** The conversion [int(x)] (and [int64(x)]): truncation toward zero.
    When the integer part does not fit, or there is none, the Go
    specification leaves the result to the implementation; the value
    taken here is the one of amd64 (the "integer indefinite" of
    CVTTSD2SQ). *)
Definition to_int (x : spec_float) : Z :=
  match trunc x with
  | Some n => if (min_int64 <=? n) && (n <? 2 ^ 63) then n else min_int64
  | None => min_int64
  end.

(** The conversion [uint64(x)], as the gc compiler does it on amd64:
    below 2^63 through the signed conversion, from 2^63 on through the
    signed conversion of [x - 2^63] with the top bit set.  It is the
    integer part of [x] whenever that lies in [0, 2^64). *)
Definition to_uint64 (x : spec_float) : Z :=
  let two63 := of_Z (2 ^ 63) in
  if SFltb x two63 then to_int x mod 2 ^ 64
  else Z.lor (to_int (sub x two63) mod 2 ^ 64) (2 ^ 63).

End float64.

(** ** Package [strconv] *)

Module strconv.

Definition ErrSyntax : error := errorString "invalid syntax".
Definition ErrRange : error := errorString "value out of range".

(** [readFloat] on an unsigned decimal without exponent: the digits
    read so far form the integer [mant], of which [frac] stand behind the
    decimal point. *)
Fixpoint readFloat (s : string) (sawdot sawdigits : bool) (mant frac : Z)
  : option (Z * Z) :=
  match s with
  | EmptyString => if sawdigits then Some (mant, frac) else None
  | String c s' =>
      let b := utf8.byte_val c in
      if b =? 46 then
        if sawdot then None else readFloat s' true sawdigits mant frac
      else if (48 <=? b) && (b <=? 57) then
        readFloat s' sawdot true (10 * mant + (b - 48))
          (if sawdot then frac + 1 else frac)
      else None
  end.

(** The [float64] nearest to [mant / 10^frac], ties to even; infinity
    when that overflows. *)
Definition atof64 (mant frac : Z) : spec_float :=
  match mant with
  | Z0 => float64.zero
  | _ =>
      let '(q, e, l) :=
        SFdiv_core_binary float64.prec float64.emax mant 0 (10 ^ frac) 0 in
      binary_round_aux float64.prec float64.emax false q e l
  end.

(** [strconv.ParseFloat(s, 64)].  Only the syntax that the package can
    hand over is embedded: the package passes a text of decimal digits
    (of any script) and points (lemma [numeric_part_plain] below), which
    Go accepts exactly when it is one or more ASCII digits with at most
    one point among them.  Signs, exponents, hexadecimal mantissas,
    underscores, infinities and NaN never reach this call and are not
    modelled: such a text is a syntax error here. *)
Definition ParseFloat (s : string) : spec_float * option error :=
  match readFloat s false false 0 0 with
  | None => (float64.zero, Some (NumError "ParseFloat" s ErrSyntax))
  | Some (mant, frac) =>
      match atof64 mant frac with
      | S754_infinity sg =>
          (S754_infinity sg, Some (NumError "ParseFloat" s ErrRange))
      | f => (f, None)
      end
  end.

End strconv.

(** ** Package [fmt] *)

Module fmt.

(** The operands that the package passes to [Sprintf]. *)
Inductive operand : Type :=
| Float64 (x : spec_float)
| Str (s : string).

Definition decimal (n : Z) : string :=
  NilZero.string_of_uint (N.to_uint (Z.to_N n)).

Fixpoint zeros (n : nat) : string :=
  match n with
  | O => EmptyString
  | S k => String "0" (zeros k)
  end.

(** The digits of [m * 2^e] in the style of verb [f] with [p] decimals:
    the exact value, rounded to nearest at the last decimal, ties to
    even. *)
Definition fixed (m : positive) (e : Z) (p : nat) : string :=
  let scale := 10 ^ Z.of_nat p in
  let q :=
    if 0 <=? e then Z.pos m * 2 ^ e * scale
    else
      let num := Z.pos m * scale in
      let den := 2 ^ (- e) in
      let q0 := num / den in
      let r := num mod den in
      match 2 * r ?= den with
      | Lt => q0
      | Gt => q0 + 1
      | Eq => if Z.even q0 then q0 else q0 + 1
      end in
  let ip := decimal (q / scale) in
  match p with
  | O => ip
  | _ =>
      let fp := decimal (q mod scale) in
      ip +:+ "." +:+ zeros (p - String.length fp) +:+ fp
  end.

(** A [float64] under [%.pf]. *)
Definition fmtFloat (x : spec_float) (p : nat) : string :=
  match x with
  | S754_nan => "NaN"
  | S754_infinity s => if s then "-Inf" else "+Inf"
  | S754_zero s =>
      (if s then "-" else "") +:+
      match p with O => "0" | _ => "0." +:+ zeros p end
  | S754_finite s m e => (if s then "-" else "") +:+ fixed m e p
  end.

(** Where [doPrintf] stands in the format: in plain text, behind a
    [%], or behind [%.] and the digits of a precision. *)
Inductive position : Type :=
| Text
| Percent
| Precision (p : Z).

(** [doPrintf] on the fragment of the format language embedded here:
    plain text, [%%], [%s] with a string operand, [%f] and [%.Nf] with a
    [float64] operand.  The result is the text written and the operands
    left over; [None] as soon as the format or an operand leaves the
    fragment (other verbs, flags, widths, a verb without its operand, a
    format that ends inside a verb). *)
Fixpoint doPrintf (pos : position) (format : string) (a : list operand)
  : option (string * list operand) :=
  match format with
  | EmptyString =>
      match pos with
      | Text => Some (EmptyString, a)
      | _ => None
      end
  | String c rest =>
      let emit (out : string) (a' : list operand) :=
        match doPrintf Text rest a' with
        | Some (more, a'') => Some (out +:+ more, a'')
        | None => None
        end in
      let b := utf8.byte_val c in
      match pos with
      | Text =>
          if b =? 37 then doPrintf Percent rest a
          else emit (String c EmptyString) a
      | Percent =>
          if b =? 37 then emit "%" a
          else if b =? 46 then doPrintf (Precision 0) rest a
          else if b =? 102 then
            match a with
            | Float64 x :: a' => emit (fmtFloat x 6) a'
            | _ => None
            end
          else if b =? 115 then
            match a with
            | Str s :: a' => emit s a'
            | _ => None
            end
          else None
      | Precision p =>
          if (48 <=? b) && (b <=? 57) then
            let p' := 10 * p + (b - 48) in
            if 1000000 <? p' then None
            else doPrintf (Precision p') rest a
          else if b =? 102 then
            match a with
            | Float64 x :: a' => emit (fmtFloat x (Z.to_nat p)) a'
            | _ => None
            end
          else None
      end
  end.

(** [fmt.Sprintf]: it returns the text when the call stays inside the
    fragment and uses up its operands. *)
Definition Sprintf (format : string) (a : list operand) : outcome string :=
  match doPrintf Text format a with
  | Some (out, []) => Returns out
  | _ => Unmodelled
  end.

End fmt.

(** ** Package [bytesize] *)

Module bytesize.

(** [type ByteSize uint64] *)
Abbreviation ByteSize := Z (only parsing).

Definition uint64_max : Z := 2 ^ 64 - 1.

(** Byte size suffixes: [1 << (10 * iota)]. *)
Definition B : ByteSize := 1.
Definition KB : ByteSize := Z.shiftl 1 (10 * 1).
Definition MB : ByteSize := Z.shiftl 1 (10 * 2).
Definition GB : ByteSize := Z.shiftl 1 (10 * 3).
Definition TB : ByteSize := Z.shiftl 1 (10 * 4).
Definition PB : ByteSize := Z.shiftl 1 (10 * 5).
Definition EB : ByteSize := Z.shiftl 1 (10 * 6).

(** [type Locale string] *)
Abbreviation Locale := string (only parsing).

Definition LocaleEN : Locale := "en".
Definition LocaleRU : Locale := "ru".

Record unitDefinitions : Type := {
  longUnits : gmap Z string;
  shortUnits : gmap Z string;
  parseMap : gmap string Z
}.

(** The zero value of the struct: three nil maps. *)
#[export] Instance unitDefinitions_inhabited : Inhabited unitDefinitions :=
  populate {| longUnits := ∅; shortUnits := ∅; parseMap := ∅ |}.

(** The composite literal that declares [localizedUnits]. *)
Definition localizedUnits0 : gmap string unitDefinitions :=
  list_to_map [
    (LocaleEN, {|
       longUnits := list_to_map [
         (B, "byte"); (KB, "kilobyte"); (MB, "megabyte"); (GB, "gigabyte");
         (TB, "terabyte"); (PB, "petabyte"); (EB, "exabyte") ];
       shortUnits := list_to_map [
         (B, "B"); (KB, "KB"); (MB, "MB"); (GB, "GB"); (TB, "TB");
         (PB, "PB"); (EB, "EB") ];
       parseMap := list_to_map [
         ("B", B); ("BYTE", B); ("BYTES", B);
         ("KB", KB); ("KILOBYTE", KB); ("KILOBYTES", KB);
         ("MB", MB); ("MEGABYTE", MB); ("MEGABYTES", MB);
         ("GB", GB); ("GIGABYTE", GB); ("GIGABYTES", GB);
         ("TB", TB); ("TERABYTE", TB); ("TERABYTES", TB);
         ("PB", PB); ("PETABYTE", PB); ("PETABYTES", PB);
         ("EB", EB); ("EXABYTE", EB); ("EXABYTES", EB) ] |});
    (LocaleRU, {|
       longUnits := list_to_map [
         (B, "байт"); (KB, "килобайт"); (MB, "мегабайт"); (GB, "гигабайт");
         (TB, "терабайт"); (PB, "петабайт"); (EB, "эксабайт") ];
       shortUnits := list_to_map [
         (B, "Б"); (KB, "КБ"); (MB, "МБ"); (GB, "ГБ"); (TB, "ТБ");
         (PB, "ПБ"); (EB, "ЭБ") ];
       parseMap := list_to_map [
         ("Б", B); ("БАЙТ", B); ("БАЙТЫ", B); ("БАЙТОВ", B);
         ("КБ", KB); ("КИЛОБАЙТ", KB); ("КИЛОБАЙТЫ", KB); ("КИЛОБАЙТОВ", KB);
         ("МБ", MB); ("МЕГАБАЙТ", MB); ("МЕГАБАЙТЫ", MB); ("МЕГАБАЙТОВ", MB);
         ("ГБ", GB); ("ГИГАБАЙТ", GB); ("ГИГАБАЙТЫ", GB); ("ГИГАБАЙТОВ", GB);
         ("ТБ", TB); ("ТЕРАБАЙТ", TB); ("ТЕРАБАЙТЫ", TB); ("ТЕРАБАЙТОВ", TB);
         ("ПБ", PB); ("ПЕТАБАЙТ", PB); ("ПЕТАБАЙТЫ", PB); ("ПЕТАБАЙТОВ", PB);
         ("ЭБ", EB); ("ЭКСАБАЙТ", EB); ("ЭКСАБАЙТЫ", EB); ("ЭКСАБАЙТОВ", EB)
       ] |}) ].

(** The body of the loop of [init]: the assignment
    [localizedUnits[LocaleRU].parseMap[k] = v], guarded by the absence
    of [k].  The assignment writes into the map that the Russian entry
    of the registry holds. *)
Definition init_step (k : string) (v : ByteSize)
    (reg : gmap string unitDefinitions) : gmap string unitDefinitions :=
  match parseMap (reg !!! LocaleRU) !! k with
  | Some _ => reg
  | None =>
      alter (fun u => {| longUnits := longUnits u;
                         shortUnits := shortUnits u;
                         parseMap := <[k := v]> (parseMap u) |}) LocaleRU reg
  end.

(** [func init()]: the loop over the English parse map. *)
Definition init (reg : gmap string unitDefinitions)
  : gmap string unitDefinitions :=
  map_fold init_step reg (parseMap (reg !!! LocaleEN)).

(** [localizedUnits] as every function of the package finds it: the
    declared value after [init] has run. *)
Definition localizedUnits : gmap string unitDefinitions :=
  init localizedUnits0.

(** The package variables [CurrentLocale], [LongUnits] and [Format]. *)
Record globals : Type := {
  CurrentLocale : Locale;
  LongUnits : bool;
  Format : string
}.

(** Their declared values. *)
Definition globals0 : globals :=
  {| CurrentLocale := LocaleEN; LongUnits := false; Format := "%.2f" |}.

(** [func SetLocale(locale Locale)] *)
Definition SetLocale (locale : Locale) (g : globals) : globals :=
  match localizedUnits !! locale with
  | Some _ =>
      {| CurrentLocale := locale;
         LongUnits := LongUnits g;
         Format := Format g |}
  | None => g
  end.

(** The loop of [parseWithLocale] over the runes of [s]: at the first
    rune that is neither a digit nor a point the two halves are appended
    to [split] and the loop is left. *)
Fixpoint split_loop (s : string) (rs : list (nat * Z)) : list string :=
  match rs with
  | [] => []
  | (i, r) :: rest =>
      if negb (unicode.IsDigit r) && negb (r =? 46) then
        [ strings.TrimSpace (slice s 0 i);
          strings.TrimSpace (slice s i (String.length s)) ]
      else split_loop s rest
  end.

(** [func parseWithLocale(s string, locale Locale) (ByteSize, error)] *)
Definition parseWithLocale (s : string) (locale : Locale)
  : ByteSize * option error :=
  match localizedUnits !! locale with
  | None => (0, Some (errorString ("unsupported locale: " +:+ locale)))
  | Some units =>
      let s := strings.TrimSpace s in
      let split := split_loop s (range_string s) in
      if negb (length split =? 2)%nat then
        (0, Some (errorString "unrecognized size suffix"))
      else
        let split0 := nth 0 split EmptyString in
        let split1 := nth 1 split EmptyString in
        match parseMap units !! strings.ToUpper split1 with
        | None =>
            (0, Some (errorString ("unrecognized size suffix: " +:+ split1)))
        | Some unit =>
            match strconv.ParseFloat split0 with
            | (_, Some err) => (0, Some err)
            | (value, None) =>
                (float64.to_uint64 (float64.mul value (float64.of_Z unit)),
                 None)
            end
        end
  end.

(** [func Parse(s string) (ByteSize, error)] *)
Definition Parse (g : globals) (s : string) : ByteSize * option error :=
  parseWithLocale s (CurrentLocale g).

(** [func (b *ByteSize) Set(s string) error]: the value behind the
    receiver afterwards, and the error returned. *)
Definition ByteSize_Set (g : globals) (b : ByteSize) (s : string)
  : ByteSize * option error :=
  match Parse g s with
  | (_, Some err) => (b, Some err)
  | (bs, None) => (bs, None)
  end.

(** [func (b *ByteSize) UnmarshalText(text []byte) error] *)
Definition UnmarshalText (g : globals) (b : ByteSize) (text : list ascii)
  : ByteSize * option error :=
  ByteSize_Set g b (string_of_list_ascii text).

(** [func New(s float64) ByteSize] *)
Definition New (s : spec_float) : ByteSize := float64.to_uint64 s.

(** The element [forms[i]] of a slice; indexing past its length panics. *)
Definition index (forms : list string) (i : nat) : outcome string :=
  match forms !! i with
  | Some s => Returns s
  | None => Panics
  end.

(** The [switch] of [getRussianPlural] that fills the slice [forms];
    without a matching case the slice stays nil. *)
Definition plural_forms (unit : ByteSize) : list string :=
  if unit =? B then ["байт"; "байта"; "байтов"]
  else if unit =? KB then ["килобайт"; "килобайта"; "килобайтов"]
  else if unit =? MB then ["мегабайт"; "мегабайта"; "мегабайтов"]
  else if unit =? GB then ["гигабайт"; "гигабайта"; "гигабайтов"]
  else if unit =? TB then ["терабайт"; "терабайта"; "терабайтов"]
  else if unit =? PB then ["петабайт"; "петабайта"; "петабайтов"]
  else if unit =? EB then ["эксабайт"; "эксабайта"; "эксабайтов"]
  else [].

(** [func getRussianPlural(value float64, unit ByteSize) string].  The
    operator [%] of Go is the remainder of the truncated division. *)
Definition getRussianPlural (value : spec_float) (unit : ByteSize)
  : outcome string :=
  let intValue := float64.to_int value in
  let forms := plural_forms unit in
  if (11 <=? Z.rem intValue 100) && (Z.rem intValue 100 <=? 19) then
    index forms 2
  else
    let d := Z.rem intValue 10 in
    if d =? 1 then index forms 0
    else if (d =? 2) || (d =? 3) || (d =? 4) then index forms 1
    else index forms 2.

(** The [switch] of [formatWithUnits] that picks the unit for [b]. *)
Definition pick_unit (b : ByteSize) : ByteSize :=
  if EB <=? b then EB
  else if PB <=? b then PB
  else if TB <=? b then TB
  else if GB <=? b then GB
  else if MB <=? b then MB
  else if KB <=? b then KB
  else B.

(** The first statement of [formatWithUnits]: the unit to render in, or
    the text that the function returns at once. *)
Definition unit_size (b : ByteSize) (unit : string) (units : unitDefinitions)
  : string + ByteSize :=
  if String.eqb unit EmptyString then inr (pick_unit b)
  else
    match parseMap units !! strings.ToUpper unit with
    | Some unitSize => inr unitSize
    | None => inl ("Unrecognized unit: " +:+ unit)
    end.

(** The unit name of the long form: the long name of the table, put in
    the plural by the grammar of [CurrentLocale]. *)
Definition long_label (g : globals) (units : unitDefinitions)
    (value : spec_float) (unitSize : ByteSize) : outcome string :=
  let unitStr := default EmptyString (longUnits units !! unitSize) in
  if String.eqb (CurrentLocale g) LocaleRU then
    getRussianPlural value unitSize
  else if String.eqb (CurrentLocale g) LocaleEN then
    if SFltb float64.zero value && negb (SFeqb value float64.one) then
      Returns (unitStr +:+ "s")
    else Returns unitStr
  else Returns unitStr.

(** [func (b ByteSize) formatWithUnits(format string, unit string,
    longUnits bool, units unitDefinitions) string] *)
Definition formatWithUnits (g : globals) (b : ByteSize) (format unit : string)
    (long : bool) (units : unitDefinitions) : outcome string :=
  match unit_size b unit units with
  | inl message => Returns message
  | inr unitSize =>
      let value := float64.div (float64.of_Z b) (float64.of_Z unitSize) in
      if long then
        bind (long_label g units value unitSize) (fun unitStr =>
          fmt.Sprintf (format +:+ " %s") [fmt.Float64 value; fmt.Str unitStr])
      else
        fmt.Sprintf (format +:+ "%s")
          [fmt.Float64 value;
           fmt.Str (default EmptyString (shortUnits units !! unitSize))]
  end.

(** The first statement of [formatWithLocale]: the tables of [locale],
    and those of [LocaleEN] when the registry has none for it. *)
Definition units_of (locale : Locale) : unitDefinitions :=
  match localizedUnits !! locale with
  | Some units => units
  | None => localizedUnits !!! LocaleEN
  end.

(** [func (b ByteSize) formatWithLocale(format string, unit string,
    longUnits bool, locale Locale) string] *)
Definition formatWithLocale (g : globals) (b : ByteSize)
    (format unit : string) (long : bool) (locale : Locale) : outcome string :=
  formatWithUnits g b format unit long (units_of locale).

(** [func (b ByteSize) Format(format string, unit string, longUnits bool)
    string] *)
Definition ByteSize_Format (g : globals) (b : ByteSize) (format unit : string)
    (long : bool) : outcome string :=
  formatWithLocale g b format unit long (CurrentLocale g).

(** [func (b ByteSize) stringWithLocale(locale Locale) string] *)
Definition stringWithLocale (g : globals) (b : ByteSize) (locale : Locale)
  : outcome string :=
  formatWithLocale g b (Format g) EmptyString (LongUnits g) locale.

(** [func (b ByteSize) String() string] *)
Definition ByteSize_String (g : globals) (b : ByteSize) : outcome string :=
  stringWithLocale g b (CurrentLocale g).

End bytesize.

(** * Properties *)

Import bytesize.

(** The seven unit magnitudes of the specification. *)
Definition magnitudes : list ByteSize := [B; KB; MB; GB; TB; PB; EB].

Definition is_magnitude (u : ByteSize) : bool := existsb (Z.eqb u) magnitudes.

(** The supported locales are the keys of the registry. *)
Definition supported (locale : Locale) : Prop :=
  locale = LocaleEN \/ locale = LocaleRU.

#[export] Instance supported_dec locale : Decision (supported locale).
Proof. unfold supported. apply _. Defined.

(** The errors of the parser, by the names the specification gives
    them. *)
Definition ErrMalformedInput : error := errorString "unrecognized size suffix".

Definition ErrUnknownUnit (unit : string) : error :=
  errorString ("unrecognized size suffix: " +:+ unit).

(** The grammatical number of the specification, stated on the
    mathematical remainders of an integer [n]: "many" when [n mod 100]
    lies in 11..19, else "one" for a last digit 1, "few" for a last digit
    2, 3 or 4, and "many" for the last digits 0 and 5..9. *)
Inductive number : Type := One | Few | Many.

Definition grammatical_number (n : Z) : number :=
  if (11 <=? n mod 100) && (n mod 100 <=? 19) then Many
  else if n mod 10 =? 1 then One
  else if (2 <=? n mod 10) && (n mod 10 <=? 4) then Few
  else Many.

(** The place of each number in the slice [forms]. *)
Definition form_index (k : number) : nat :=
  match k with One => 0 | Few => 1 | Many => 2 end.

(** A text is numeric when each of its runes is a decimal digit or a
    point: the loop of the parser finds no place to split it. *)
Definition digit_or_point (p : nat * Z) : bool :=
  unicode.IsDigit (snd p) || (snd p =? 46).

Definition numeric (s : string) : Prop :=
  forallb digit_or_point (range_string s) = true.

#[export] Instance error_eq_dec : EqDecision error.
Proof. solve_decision. Defined.

(** What the specification asks of a spelling [k] that only the
    secondary table has: under the primary locale a size written with it
    is refused as an unknown unit. *)
Definition refused_by_primary (k : string) : Prop :=
  parseMap (units_of LocaleEN) !! k = None ->
  parseWithLocale ("1 " +:+ k) LocaleEN = (0, Some (ErrUnknownUnit k)).

#[export] Instance refused_by_primary_dec k : Decision (refused_by_primary k).
Proof. unfold refused_by_primary. apply _. Defined.

(** The round trip of the specification for one locale and one
    magnitude, under the declared settings: the text that
    [stringWithLocale] returns parses back to the magnitude. *)
Definition round_trips (L : Locale) (M : ByteSize) : bool :=
  match stringWithLocale globals0 M L with
  | Returns s => bool_decide (parseWithLocale s L = (M, None))
  | _ => false
  end.

(** The bytes that the numeric half of an input can hold: an ASCII
    digit, a point, or a byte of the encoding of a rune beyond ASCII. *)
Definition plain (c : ascii) : Prop :=
  48 <= utf8.byte_val c <= 57 \/ utf8.byte_val c = 46 \/ 0x80 <= utf8.byte_val c.

(** A byte that is not ASCII. *)
Definition continuation (c : ascii) : Prop := 0x80 <= utf8.byte_val c.

(** One call of [SetLocale], as a step of a sequence of calls. *)
Definition set_locale_step (g : globals) (v : Locale) : globals :=
  SetLocale v g.

(** The text of [b] under the settings [g] parses back, under the same
    settings, to [b]. *)
Definition long_round_trip (g : globals) (b : ByteSize) : bool :=
  match ByteSize_String g b with
  | Returns s => bool_decide (Parse g s = (b, None))
  | _ => false
  end.

(** The text of [b] under the settings [g] is refused, under the same
    settings, for its unit [unit]. *)
Definition long_refused (g : globals) (b : ByteSize) (unit : string) : bool :=
  match ByteSize_String g b with
  | Returns s => bool_decide (Parse g s = (0, Some (ErrUnknownUnit unit)))
  | _ => false
  end.

(** A text of ASCII digits and points. *)
Definition digits_and_points (d : string) : Prop :=
  Forall (fun c => 48 <= utf8.byte_val c <= 57 \/ utf8.byte_val c = 46)
    (list_ascii_of_string d).

(** A spelling that does not start with a comma. *)
Definition no_comma (p : string * Z) : bool :=
  match fst p with
  | String c _ => negb (utf8.byte_val c =? 44)
  | EmptyString => true
  end.

(** Two settings of the package variables for the long form. *)
Definition english_long : globals :=
  {| CurrentLocale := LocaleEN; LongUnits := true; Format := "%.2f" |}.

Definition russian_long : globals :=
  {| CurrentLocale := LocaleRU; LongUnits := true; Format := "%.0f" |}.

(** The display value of [b] in the unit [unitSize]. *)
Definition display_value (b unitSize : ByteSize) : spec_float :=
  float64.div (float64.of_Z b) (float64.of_Z unitSize).

(** ** The registry *)

Lemma dom_localizedUnits : dom localizedUnits = {[LocaleEN; LocaleRU]}.
Proof. vm_compute. reflexivity. Qed.

Lemma localizedUnits_supported locale :
  is_Some (localizedUnits !! locale) <-> supported locale.
Proof.
  rewrite <- elem_of_dom, dom_localizedUnits. unfold supported. set_solver.
Qed.

Lemma localizedUnits_unsupported locale :
  localizedUnits !! locale = None <-> ~ supported locale.
Proof.
  rewrite <- localizedUnits_supported, eq_None_not_Some. reflexivity.
Qed.

(** ** C9: [SetLocale] *)

(** C9.  [SetLocale v] makes [v] the active locale when [v] is one of
    the supported locales and changes nothing otherwise; the long-units
    flag and the format string are never touched. *)
Theorem SetLocale_spec (v : Locale) (g : globals) :
  CurrentLocale (SetLocale v g)
    = (if bool_decide (supported v) then v else CurrentLocale g)
  /\ LongUnits (SetLocale v g) = LongUnits g
  /\ Format (SetLocale v g) = Format g.
Proof.
  unfold SetLocale. case_bool_decide as Hv.
  - apply localizedUnits_supported in Hv as [u ->]. done.
  - apply localizedUnits_unsupported in Hv as ->. done.
Qed.

(** ** C10: [Set] and [UnmarshalText] *)

(** C10.  When [Parse s] returns an error, [Set s] returns that error
    and leaves the value behind the receiver as it was; when [Parse s]
    succeeds, the receiver holds the parsed size afterwards.
    [UnmarshalText] does what [Set] does on the text as a string. *)
Theorem Set_atomic (g : globals) (b : ByteSize) (s : string) :
  match Parse g s with
  | (_, Some err) => ByteSize_Set g b s = (b, Some err)
  | (bs, None) => ByteSize_Set g b s = (bs, None)
  end
  /\ forall text : list ascii,
       UnmarshalText g b text = ByteSize_Set g b (string_of_list_ascii text).
Proof.
  split; [| reflexivity].
  unfold ByteSize_Set. destruct (Parse g s) as [bs [err|]]; reflexivity.
Qed.

(** ** C5: the choice of the unit *)

Lemma pick_unit_magnitude (b : ByteSize) : In (pick_unit b) magnitudes.
Proof.
  unfold pick_unit, magnitudes.
  repeat (case_match; [simpl; tauto |]). simpl; tauto.
Qed.

(** C5.  Without a unit override the formatter renders [b] in the
    largest of the seven magnitudes that [b] reaches, and in bytes when
    [b] is below 1024; the value displayed is [b] divided by that
    magnitude in [float64]. *)
Theorem pick_unit_largest (b : ByteSize) :
  In (pick_unit b) magnitudes
  /\ (1 <= b -> pick_unit b <= b)
  /\ (b < 1024 -> pick_unit b = B)
  /\ (forall M, In M magnitudes -> M <= b -> M <= pick_unit b)
  /\ forall g format long units,
       formatWithUnits g b format EmptyString long units =
         let value := display_value b (pick_unit b) in
         if long then
           bind (long_label g units value (pick_unit b)) (fun unitStr =>
             fmt.Sprintf (format +:+ " %s")
               [fmt.Float64 value; fmt.Str unitStr])
         else
           fmt.Sprintf (format +:+ "%s")
             [fmt.Float64 value;
              fmt.Str (default EmptyString
                         (shortUnits units !! pick_unit b))].
Proof.
  split; [apply pick_unit_magnitude |].
  assert (HB : B = 1) by reflexivity.
  assert (HKB : KB = 1024) by reflexivity.
  assert (HMB : MB = 1024 ^ 2) by reflexivity.
  assert (HGB : GB = 1024 ^ 3) by reflexivity.
  assert (HTB : TB = 1024 ^ 4) by reflexivity.
  assert (HPB : PB = 1024 ^ 5) by reflexivity.
  assert (HEB : EB = 1024 ^ 6) by reflexivity.
  split; [| split; [| split]].
  - unfold pick_unit. repeat case_match; lia.
  - unfold pick_unit. repeat case_match; lia.
  - intros M HM Hle. unfold magnitudes in HM. simpl in HM.
    unfold pick_unit. repeat case_match; intuition lia.
  - intros g format long units. reflexivity.
Qed.

Lemma pick_unit_largest_witness :
  pick_unit 5000 <= 5000 /\ pick_unit 17 = B /\ MB <= pick_unit (3 * MB).
Proof.
  destruct (pick_unit_largest 5000) as (_ & H1 & _).
  destruct (pick_unit_largest 17) as (_ & _ & H2 & _).
  destruct (pick_unit_largest (3 * MB)) as (_ & _ & _ & H3 & _).
  split; [apply H1; lia |].
  split; [apply H2; lia |].
  apply H3; [simpl; tauto | vm_compute; discriminate].
Defined.

(** ** C6: formatting always yields a text *)

Lemma map_forallb {A : Type} (f : string * A -> bool) (m : gmap string A) :
  forallb f (map_to_list m) = true ->
  forall k v, m !! k = Some v -> f (k, v) = true.
Proof.
  intros Hall k v Hkv. rewrite forallb_forall in Hall.
  apply (Hall (k, v)). apply list_elem_of_In, elem_of_map_to_list, Hkv.
Qed.

Lemma is_magnitude_In (u : ByteSize) : is_magnitude u = true -> In u magnitudes.
Proof.
  unfold is_magnitude. rewrite existsb_exists. intros (M & HM & Heq).
  apply Z.eqb_eq in Heq. subst M. exact HM.
Qed.

Lemma units_of_unsupported (locale : Locale) :
  ~ supported locale -> units_of locale = units_of LocaleEN.
Proof.
  intros Hl. apply localizedUnits_unsupported in Hl.
  unfold units_of. rewrite Hl. reflexivity.
Qed.

Lemma en_magnitudes :
  forallb (fun p => is_magnitude (snd p))
    (map_to_list (parseMap (units_of LocaleEN))) = true.
Proof. vm_compute. reflexivity. Qed.

Lemma ru_magnitudes :
  forallb (fun p => is_magnitude (snd p))
    (map_to_list (parseMap (units_of LocaleRU))) = true.
Proof. vm_compute. reflexivity. Qed.

(** Every spelling of every table of the registry stands for one of the
    seven magnitudes. *)
Lemma units_of_magnitude (locale : Locale) (k : string) (u : ByteSize) :
  parseMap (units_of locale) !! k = Some u -> In u magnitudes.
Proof.
  intros Hk. apply is_magnitude_In.
  destruct (decide (supported locale)) as [[-> | ->] | Hn].
  - exact (map_forallb (fun p => is_magnitude (snd p))
             (parseMap (units_of LocaleEN)) en_magnitudes k u Hk).
  - exact (map_forallb (fun p => is_magnitude (snd p))
             (parseMap (units_of LocaleRU)) ru_magnitudes k u Hk).
  - rewrite (units_of_unsupported locale Hn) in Hk.
    exact (map_forallb (fun p => is_magnitude (snd p))
             (parseMap (units_of LocaleEN)) en_magnitudes k u Hk).
Qed.

Lemma unit_size_magnitude (b : ByteSize) (unit : string) (locale : Locale)
    (unitSize : ByteSize) :
  unit_size b unit (units_of locale) = inr unitSize -> In unitSize magnitudes.
Proof.
  unfold unit_size. destruct (String.eqb unit EmptyString).
  - intros [= <-]. apply pick_unit_magnitude.
  - destruct (parseMap (units_of locale) !! strings.ToUpper unit) eqn:Hu;
      [| discriminate].
    intros [= <-]. eapply units_of_magnitude, Hu.
Qed.

(** On the seven magnitudes [getRussianPlural] finds its three forms. *)
Lemma getRussianPlural_returns (value : spec_float) (M : ByteSize) :
  In M magnitudes -> exists s, getRussianPlural value M = Returns s.
Proof.
  intros HM. unfold getRussianPlural.
  assert (Hf : exists f0 f1 f2, plural_forms M = [f0; f1; f2]).
  { simpl in HM. destruct HM as [<-|[<-|[<-|[<-|[<-|[<-|[<-|[]]]]]]]];
      vm_compute; eauto. }
  destruct Hf as (f0 & f1 & f2 & ->). cbv zeta.
  repeat case_match; simpl; eauto.
Qed.

Lemma Sprintf_no_panic (format : string) (a : list fmt.operand) :
  fmt.Sprintf format a <> Panics.
Proof. unfold fmt.Sprintf. repeat case_match; discriminate. Qed.

(** C6.  Formatting always comes back with a text.  No call panics; a
    unit override that is not empty and that the parse table of the
    locale does not know in upper case makes the result the text
    "Unrecognized unit: " followed by the override; and an unsupported
    locale is served from the tables of the primary locale. *)
Theorem format_never_fails :
  (forall g b format unit long locale,
     formatWithLocale g b format unit long locale <> Panics)
  /\ (forall g b format unit long units,
        unit <> EmptyString ->
        parseMap units !! strings.ToUpper unit = None ->
        formatWithUnits g b format unit long units
          = Returns ("Unrecognized unit: " +:+ unit))
  /\ (forall g b format unit long locale,
        ~ supported locale ->
        formatWithLocale g b format unit long locale
          = formatWithLocale g b format unit long LocaleEN).
Proof.
  split; [| split].
  - intros g b format unit long locale.
    unfold formatWithLocale, formatWithUnits.
    destruct (unit_size b unit (units_of locale)) as [msg | unitSize] eqn:Hu;
      [discriminate |].
    apply unit_size_magnitude in Hu.
    destruct long; [| apply Sprintf_no_panic].
    unfold long_label.
    destruct (String.eqb (CurrentLocale g) LocaleRU).
    + destruct (getRussianPlural_returns
                  (float64.div (float64.of_Z b) (float64.of_Z unitSize))
                  unitSize Hu) as [s ->].
      apply Sprintf_no_panic.
    + repeat case_match; apply Sprintf_no_panic.
  - intros g b format unit long units Hne Hnone.
    unfold formatWithUnits, unit_size.
    destruct (String.eqb_spec unit EmptyString) as [-> | _]; [done |].
    rewrite Hnone. reflexivity.
  - intros g b format unit long locale Hl.
    unfold formatWithLocale. rewrite (units_of_unsupported locale Hl).
    reflexivity.
Qed.

Lemma format_never_fails_witness :
  formatWithUnits globals0 2048 "%.2f" "XB" false (units_of LocaleEN)
    = Returns "Unrecognized unit: XB"
  /\ formatWithLocale globals0 2048 "%.2f" "" false "fr"
     = formatWithLocale globals0 2048 "%.2f" "" false LocaleEN.
Proof.
  destruct format_never_fails as (_ & H2 & H3). split.
  - apply (H2 globals0 2048 "%.2f" "XB" false (units_of LocaleEN)).
    + discriminate.
    + vm_compute. reflexivity.
  - apply (H3 globals0 2048 "%.2f" EmptyString false "fr").
    unfold supported, LocaleEN, LocaleRU. intros [H | H]; discriminate H.
Defined.

(** ** C8: the grammar of the long form *)

(** C8.  In the long form the grammar of the unit name is chosen by the
    package variable [CurrentLocale], not by the locale that the call
    names.  While [CurrentLocale] is the secondary locale the name is the
    Russian plural form of the unit, whatever locale is passed; while it
    is the primary locale the name is the long name of the passed
    locale's table, with an "s" by the English rule. *)
Theorem grammar_follows_CurrentLocale (g : globals) (b : ByteSize)
    (format unit : string) (locale : Locale) (unitSize : ByteSize) :
  unit_size b unit (units_of locale) = inr unitSize ->
  let value := display_value b unitSize in
  let name := default EmptyString (longUnits (units_of locale) !! unitSize) in
  (CurrentLocale g = LocaleRU ->
     formatWithLocale g b format unit true locale =
       bind (getRussianPlural value unitSize) (fun unitStr =>
         fmt.Sprintf (format +:+ " %s") [fmt.Float64 value; fmt.Str unitStr]))
  /\ (CurrentLocale g = LocaleEN ->
        formatWithLocale g b format unit true locale =
          fmt.Sprintf (format +:+ " %s")
            [fmt.Float64 value;
             fmt.Str (if SFltb float64.zero value
                         && negb (SFeqb value float64.one)
                      then name +:+ "s" else name)]).
Proof.
  intros Hu value name.
  unfold formatWithLocale, formatWithUnits, long_label. rewrite Hu.
  fold (display_value b unitSize). fold value. fold name.
  split; intros ->.
  - reflexivity.
  - change (String.eqb LocaleEN LocaleRU) with false.
    change (String.eqb LocaleEN LocaleEN) with true.
    cbv iota. destruct (SFltb _ _ && negb _); reflexivity.
Qed.

Lemma grammar_follows_CurrentLocale_witness :
  formatWithLocale russian_long (2 * KB) "%.0f" "" true LocaleEN
    = Returns "2 килобайта"
  /\ formatWithLocale english_long (2 * KB) "%.0f" "" true LocaleRU
     = Returns "2 килобайтs".
Proof.
  split.
  - destruct (grammar_follows_CurrentLocale russian_long
                (2 * KB) "%.0f" "" LocaleEN KB eq_refl) as [H _].
    rewrite (H eq_refl). vm_compute. reflexivity.
  - destruct (grammar_follows_CurrentLocale english_long
                (2 * KB) "%.0f" "" LocaleRU KB eq_refl) as [_ H].
    rewrite (H eq_refl). vm_compute. reflexivity.
Defined.

(** ** C7: the English long form *)

Lemma append_cons (c : ascii) (s t : string) :
  String c s +:+ t = String c (s +:+ t).
Proof. reflexivity. Qed.

Lemma append_nil_r (s : string) : s +:+ EmptyString = s.
Proof.
  induction s as [| c s IH]; [reflexivity |]. by rewrite append_cons, IH.
Qed.

Lemma append_assoc (s1 s2 s3 : string) :
  (s1 +:+ s2) +:+ s3 = s1 +:+ (s2 +:+ s3).
Proof.
  induction s1 as [| c s1 IH]; [reflexivity |].
  by rewrite !append_cons, IH.
Qed.

(** A format that [doPrintf] gets through can be continued: the text of
    the continuation follows, fed with the operands left over. *)
Lemma doPrintf_app (f1 f2 : string) :
  forall pos a out rest,
    fmt.doPrintf pos f1 a = Some (out, rest) ->
    fmt.doPrintf pos (f1 +:+ f2) a =
      match fmt.doPrintf fmt.Text f2 rest with
      | Some (more, a') => Some (out +:+ more, a')
      | None => None
      end.
Proof.
  induction f1 as [| c f1 IH]; intros pos a out rest H.
  - destruct pos; simpl in H; try discriminate. injection H as <- <-.
    change (EmptyString +:+ f2) with f2.
    destruct (fmt.doPrintf fmt.Text f2 a) as [[more a']|]; reflexivity.
  - simpl in H. rewrite append_cons. simpl.
    assert (Hemit : forall o a0,
      match fmt.doPrintf fmt.Text f1 a0 with
      | Some (more, a') => Some (o +:+ more, a')
      | None => None
      end = Some (out, rest) ->
      match fmt.doPrintf fmt.Text (f1 +:+ f2) a0 with
      | Some (more, a') => Some (o +:+ more, a')
      | None => None
      end =
      match fmt.doPrintf fmt.Text f2 rest with
      | Some (more, a') => Some (out +:+ more, a')
      | None => None
      end).
    { intros o a0 H0.
      destruct (fmt.doPrintf fmt.Text f1 a0) as [[m1 r1]|] eqn:H1;
        [| discriminate].
      injection H0 as <- <-. rewrite (IH _ _ _ _ H1).
      destruct (fmt.doPrintf fmt.Text f2 r1) as [[more a']|];
        [| reflexivity].
      by rewrite append_assoc. }
    destruct pos.
    + destruct (utf8.byte_val c =? 37); [by apply IH | by apply Hemit].
    + destruct (utf8.byte_val c =? 37); [by apply Hemit |].
      destruct (utf8.byte_val c =? 46); [by apply IH |].
      destruct (utf8.byte_val c =? 102).
      { destruct a as [| [x | s] a]; try discriminate. by apply Hemit. }
      destruct (utf8.byte_val c =? 115); [| discriminate].
      destruct a as [| [x | s] a]; try discriminate. by apply Hemit.
    + destruct ((48 <=? utf8.byte_val c) && (utf8.byte_val c <=? 57)).
      { destruct (1000000 <? _); [discriminate | by apply IH]. }
      destruct (utf8.byte_val c =? 102); [| discriminate].
      destruct a as [| [x | s] a]; try discriminate. by apply Hemit.
Qed.

(** Operands that a format does not reach are left over. *)
Lemma doPrintf_more (f : string) (extra : list fmt.operand) :
  forall pos a out rest,
    fmt.doPrintf pos f a = Some (out, rest) ->
    fmt.doPrintf pos f (a ++ extra) = Some (out, rest ++ extra).
Proof.
  induction f as [| c f IH]; intros pos a out rest H.
  - destruct pos; simpl in H; try discriminate. by injection H as <- <-.
  - simpl in H. simpl.
    assert (Hemit : forall o a0,
      match fmt.doPrintf fmt.Text f a0 with
      | Some (more, a') => Some (o +:+ more, a')
      | None => None
      end = Some (out, rest) ->
      match fmt.doPrintf fmt.Text f (a0 ++ extra) with
      | Some (more, a') => Some (o +:+ more, a')
      | None => None
      end = Some (out, rest ++ extra)).
    { intros o a0 H0.
      destruct (fmt.doPrintf fmt.Text f a0) as [[m1 r1]|] eqn:H1;
        [| discriminate].
      injection H0 as <- <-. by rewrite (IH _ _ _ _ H1). }
    destruct pos.
    + destruct (utf8.byte_val c =? 37); [by apply IH | by apply Hemit].
    + destruct (utf8.byte_val c =? 37); [by apply Hemit |].
      destruct (utf8.byte_val c =? 46); [by apply IH |].
      destruct (utf8.byte_val c =? 102).
      { destruct a as [| [x | s] a]; try discriminate. by apply Hemit. }
      destruct (utf8.byte_val c =? 115); [| discriminate].
      destruct a as [| [x | s] a]; try discriminate. by apply Hemit.
    + destruct ((48 <=? utf8.byte_val c) && (utf8.byte_val c <=? 57)).
      { destruct (1000000 <? _); [discriminate | by apply IH]. }
      destruct (utf8.byte_val c =? 102); [| discriminate].
      destruct a as [| [x | s] a]; try discriminate. by apply Hemit.
Qed.

(** The call of the long form: the number as [format] alone renders it,
    one space, and the unit name. *)
Lemma Sprintf_long (format num unitStr : string) (value : spec_float) :
  fmt.Sprintf format [fmt.Float64 value] = Returns num ->
  fmt.Sprintf (format +:+ " %s") [fmt.Float64 value; fmt.Str unitStr]
    = Returns (num +:+ " " +:+ unitStr).
Proof.
  unfold fmt.Sprintf. intros H.
  destruct (fmt.doPrintf fmt.Text format [fmt.Float64 value])
    as [[out [| o rest]]|] eqn:Hd; try discriminate.
  injection H as ->.
  apply (doPrintf_more _ [fmt.Str unitStr]) in Hd. simpl in Hd.
  rewrite (doPrintf_app _ " %s" _ _ _ _ Hd). simpl.
  by rewrite append_nil_r.
Qed.

(** The display value of zero bytes is zero in each of the seven units. *)
Lemma display_value_zero (M : ByteSize) :
  In M magnitudes -> display_value 0 M = float64.zero.
Proof.
  simpl. intros [<-|[<-|[<-|[<-|[<-|[<-|[<-|[]]]]]]]];
    vm_compute; reflexivity.
Qed.

(** C7, as the code has it.  While [CurrentLocale] is the primary
    locale, the long form is the number as [format] renders it, one
    space, and the long name of the unit: the bare name when the display
    value is exactly 1 and also when it is zero, the name with "s"
    appended for every positive display value other than 1. *)
Theorem english_long_form (g : globals) (b : ByteSize) (format unit : string)
    (units : unitDefinitions) (unitSize : ByteSize) (num : string) :
  CurrentLocale g = LocaleEN ->
  unit_size b unit units = inr unitSize ->
  let value := display_value b unitSize in
  let name := default EmptyString (longUnits units !! unitSize) in
  fmt.Sprintf format [fmt.Float64 value] = Returns num ->
  let result := formatWithUnits g b format unit true units in
  (SFeqb value float64.one = true -> result = Returns (num +:+ " " +:+ name))
  /\ (b = 0 -> In unitSize magnitudes ->
      result = Returns (num +:+ " " +:+ name))
  /\ (SFltb float64.zero value = true -> SFeqb value float64.one = false ->
      result = Returns (num +:+ " " +:+ name +:+ "s")).
Proof.
  intros Hg Hu value name Hnum result.
  assert (Hres : result =
            Returns (num +:+ " " +:+
                     (if SFltb float64.zero value
                         && negb (SFeqb value float64.one)
                      then name +:+ "s" else name))).
  { unfold result, formatWithUnits, long_label. rewrite Hu, Hg.
    fold (display_value b unitSize). fold value. fold name.
    change (String.eqb LocaleEN LocaleRU) with false.
    change (String.eqb LocaleEN LocaleEN) with true. cbv iota.
    destruct (SFltb float64.zero value && negb (SFeqb value float64.one));
      simpl; by apply Sprintf_long. }
  rewrite Hres. split; [| split].
  - intros ->. by rewrite andb_false_r.
  - intros -> HM. unfold value. rewrite (display_value_zero _ HM).
    reflexivity.
  - intros -> ->. reflexivity.
Qed.

Lemma english_long_form_witness :
  formatWithUnits english_long MB "%.2f" "" true (units_of LocaleEN)
    = Returns "1.00 megabyte"
  /\ formatWithUnits english_long 0 "%.2f" "" true (units_of LocaleEN)
     = Returns "0.00 byte"
  /\ formatWithUnits english_long 1536 "%.2f" "" true (units_of LocaleEN)
     = Returns "1.50 kilobytes".
Proof.
  split; [| split].
  - refine (proj1 (english_long_form english_long MB "%.2f" ""
                     (units_of LocaleEN) MB "1.00" eq_refl eq_refl _) _);
      vm_compute; reflexivity.
  - refine (proj1 (proj2 (english_long_form english_long 0 "%.2f" ""
                            (units_of LocaleEN) B "0.00" eq_refl eq_refl _))
              eq_refl _).
    + vm_compute; reflexivity.
    + simpl; tauto.
  - refine (proj2 (proj2 (english_long_form english_long 1536 "%.2f" ""
                            (units_of LocaleEN) KB "1.50" eq_refl eq_refl _))
              _ _); vm_compute; reflexivity.
Defined.

(** C7 fails as the specification words it: the label of zero is not
    in the plural. *)
Lemma english_zero_is_singular :
  ByteSize_Format english_long 0 "%.2f" "" true = Returns "0.00 byte"
  /\ ByteSize_Format english_long 0 "%.2f" "" true <> Returns "0.00 bytes".
Proof. split; [vm_compute; reflexivity | vm_compute; discriminate]. Qed.

(** ** The Russian plural *)

(** X15.  Where the conversion [int(value)] is exact, the code keeps to
    the rule of its comments: for each of the seven magnitudes and every
    display value whose integer part [n] lies in the range 0 .. 2^63 - 1,
    [getRussianPlural] returns the form that the grammatical number of
    [n] selects, and does not panic. *)
Theorem russian_plural (value : spec_float) (M : ByteSize) (n : Z) :
  In M magnitudes ->
  float64.trunc value = Some n ->
  0 <= n < 2 ^ 63 ->
  getRussianPlural value M
    = index (plural_forms M) (form_index (grammatical_number n))
  /\ exists s, getRussianPlural value M = Returns s.
Proof.
  intros HM Ht Hn. split; [| by apply getRussianPlural_returns].
  unfold getRussianPlural, float64.to_int, float64.min_int64. rewrite Ht.
  replace ((- 2 ^ 63 <=? n) && (n <? 2 ^ 63)) with true
    by (symmetry; apply andb_true_iff; lia).
  cbv zeta. rewrite !Z.rem_mod_nonneg by lia.
  unfold grammatical_number.
  pose proof (Z.mod_pos_bound n 10 ltac:(lia)) as H10.
  destruct ((11 <=? n mod 100) && (n mod 100 <=? 19)); [reflexivity |].
  destruct (Z.eqb_spec (n mod 10) 1) as [E1 | H1]; [reflexivity |].
  destruct (Z.eqb_spec (n mod 10) 2) as [E2 | H2];
    [by rewrite E2 | ].
  destruct (Z.eqb_spec (n mod 10) 3) as [E3 | H3];
    [by rewrite E3 | ].
  destruct (Z.eqb_spec (n mod 10) 4) as [E4 | H4];
    [by rewrite E4 | ].
  replace ((2 <=? n mod 10) && (n mod 10 <=? 4)) with false
    by (symmetry; apply andb_false_iff; lia).
  reflexivity.
Qed.

(** The table of the specification for kilobytes. *)
Lemma russian_plural_witness :
  Forall (fun n => getRussianPlural (float64.of_Z n) KB = Returns "килобайт")
    [1; 21]
  /\ Forall (fun n =>
               getRussianPlural (float64.of_Z n) KB = Returns "килобайта")
       [2; 3; 4; 22]
  /\ Forall (fun n =>
               getRussianPlural (float64.of_Z n) KB = Returns "килобайтов")
       [0; 5; 6; 7; 8; 9; 10; 11; 12; 13; 14; 15; 16; 17; 18; 19; 25].
Proof.
  assert (HKB : In KB magnitudes) by (simpl; tauto).
  assert (H : forall n s, (0 <=? n) && (n <? 2 ^ 63) = true ->
            float64.trunc (float64.of_Z n) = Some n ->
            index (plural_forms KB) (form_index (grammatical_number n))
              = Returns s ->
            getRussianPlural (float64.of_Z n) KB = Returns s).
  { intros n s Hn Ht <-.
    apply (russian_plural (float64.of_Z n) KB n HKB Ht).
    apply andb_true_iff in Hn. lia. }
  repeat split; repeat constructor; apply H; vm_compute; reflexivity.
Defined.

(** C1 is what [getRussianPlural] promises ("returns the correct
    Russian plural form based on the number") and what its branch
    comments spell out, and the code misses it: [int(value)] is not
    guarded against overflow.  The display value 2^63 + 4096 arises from
    formatting that many bytes in the unit "B"; it is its own integer
    part and ends in the digit 4, which asks for the "few" form
    "байта".  The conversion leaves the range of [int], the remainders
    of its result match no case, and the "many" form "байтов" comes
    back. *)
Lemma russian_plural_beyond_int :
  float64.trunc (float64.of_Z (2 ^ 63 + 4096)) = Some 9223372036854779904
  /\ grammatical_number 9223372036854779904 = Few
  /\ index (plural_forms B) (form_index Few) = Returns "байта"
  /\ getRussianPlural (float64.of_Z (2 ^ 63 + 4096)) B = Returns "байтов"
  /\ ByteSize_Format russian_long (2 ^ 63 + 4096) "%.0f" "B" true
     = Returns "9223372036854779904 байтов".
Proof. repeat split; vm_compute; reflexivity. Qed.

(** ** The text handed to [strconv.ParseFloat] *)

Lemma first_range (s0 : Z) (sz : nat) (lo hi : Z) :
  utf8.first s0 = Some (sz, lo, hi) ->
  0x80 <= lo /\ (sz = 2 \/ sz = 3 \/ sz = 4)%nat.
Proof.
  unfold utf8.first. repeat case_match; intros [= <- <- <-]; lia.
Qed.

Lemma decode_width (c : ascii) (s : string) (r : Z) (w : nat) :
  utf8.DecodeRuneInString (String c s) = (r, w) ->
  (1 <= w)%nat
  /\ (utf8.byte_val c < 0x80 -> r = utf8.byte_val c)
  /\ (w - 1 <= String.length s)%nat
  /\ Forall continuation (take (w - 1) (list_ascii_of_string s)).
Proof.
  unfold utf8.DecodeRuneInString.
  change (String.length (String c s)) with (S (String.length s)).
  change (utf8.at_index (String c s) 0) with (utf8.byte_val c).
  change (S (String.length s) <? 1)%nat with false. cbv iota.
  unfold utf8.RuneSelf.
  destruct (Z.ltb_spec (utf8.byte_val c) 128) as [Hlt | Hge].
  { intros [= <- <-]. simpl. repeat split; try lia; constructor. }
  destruct (utf8.first (utf8.byte_val c)) as [[[sz lo] hi]|] eqn:Hf.
  2:{ intros [= <- <-]. simpl. repeat split; try lia; constructor. }
  apply first_range in Hf as [Hlo Hsz].
  assert (Hone : forall r0, (r, w) = (r0, 1%nat) -> 
     (1 <= w)%nat /\ (utf8.byte_val c < 128 -> r = utf8.byte_val c)
     /\ (w - 1 <= String.length s)%nat
     /\ Forall continuation (take (w - 1) (list_ascii_of_string s))).
  { intros r0 [= -> ->]. simpl. repeat split; try lia; constructor. }
  destruct (S (String.length s) <? sz)%nat eqn:Hn.
  { intros H. symmetry in H. by apply Hone in H. }
  apply Nat.ltb_ge in Hn.
  destruct s as [| c1 s]; [simpl in Hn; lia |].
  change (utf8.at_index (String c (String c1 s)) 1) with (utf8.byte_val c1).
  destruct (Z.ltb_spec (utf8.byte_val c1) lo) as [H1 | H1]; simpl.
  { intros H. symmetry in H. by apply Hone in H. }
  destruct (hi <? utf8.byte_val c1).
  { intros H. symmetry in H. by apply Hone in H. }
  destruct (sz <=? 2)%nat eqn:H2.
  { intros [= <- <-]. simpl. repeat split; try lia.
    repeat constructor. unfold continuation. lia. }
  apply Nat.leb_gt in H2.
  destruct s as [| c2 s]; [simpl in Hn; lia |].
  change (utf8.at_index (String c (String c1 (String c2 s))) 2)
    with (utf8.byte_val c2).
  unfold utf8.locb, utf8.hicb.
  destruct (Z.ltb_spec (utf8.byte_val c2) 128) as [H3 | H3]; simpl.
  { intros H. symmetry in H. by apply Hone in H. }
  destruct (191 <? utf8.byte_val c2).
  { intros H. symmetry in H. by apply Hone in H. }
  destruct (sz <=? 3)%nat eqn:H4.
  { intros [= <- <-]. simpl. repeat split; try lia.
    repeat constructor; unfold continuation; lia. }
  apply Nat.leb_gt in H4.
  destruct s as [| c3 s]; [simpl in Hn; lia |].
  change (utf8.at_index (String c (String c1 (String c2 (String c3 s)))) 3)
    with (utf8.byte_val c3).
  destruct (Z.ltb_spec (utf8.byte_val c3) 128) as [H5 | H5]; simpl.
  { intros H. symmetry in H. by apply Hone in H. }
  destruct (191 <? utf8.byte_val c3).
  { intros H. symmetry in H. by apply Hone in H. }
  intros [= <- <-]. simpl. repeat split; try lia.
  repeat constructor; unfold continuation; lia.
Qed.

Lemma continuation_plain (c : ascii) : continuation c -> plain c.
Proof. unfold continuation, plain. lia. Qed.

Lemma digit_or_point_plain (c : ascii) (i : nat) (r : Z) :
  (utf8.byte_val c < 0x80 -> r = utf8.byte_val c) ->
  digit_or_point (i, r) = true ->
  plain c.
Proof.
  intros Hr Hd. unfold plain.
  destruct (Z.lt_ge_cases (utf8.byte_val c) 0x80) as [Hlt | Hge]; [| lia].
  specialize (Hr Hlt). subst r.
  unfold digit_or_point, unicode.IsDigit, unicode.MaxLatin1 in Hd. simpl in Hd.
  destruct (Z.leb_spec (utf8.byte_val c) 255); [| lia].
  apply orb_true_iff in Hd as [Hd | Hd].
  - apply andb_true_iff in Hd as [H1 H2]. lia.
  - lia.
Qed.

(** The bytes in front of the first rune that stops the loop. *)
Lemma range_plain (s : string) :
  forall (i skip : nat) l1 j r l2,
    range_from s i skip = l1 ++ (j, r) :: l2 ->
    forallb digit_or_point l1 = true ->
    (skip <= String.length s)%nat ->
    Forall continuation (take skip (list_ascii_of_string s)) ->
    (i <= j)%nat
    /\ Forall plain (take (j - i) (list_ascii_of_string s)).
Proof.
  induction s as [| c s IH]; intros i skip l1 j r l2 Hr Hl1 Hlen Hskip.
  - simpl in Hr. by destruct l1.
  - simpl in Hr. destruct skip as [| k].
    + destruct (utf8.DecodeRuneInString (String c s)) as [r0 w] eqn:Hd.
      apply decode_width in Hd as (Hw & Hascii & Hwl & Hcont).
      destruct l1 as [| [i0 r1] l1].
      * simpl in Hr. injection Hr as <- <- _.
        split; [lia |]. rewrite Nat.sub_diag. constructor.
      * simpl in Hr. injection Hr as <- <- Hr.
        simpl in Hl1. apply andb_true_iff in Hl1 as [Hd1 Hl1].
        replace (Nat.pred w) with (w - 1)%nat in Hr by lia.
        destruct (IH _ _ _ _ _ _ Hr Hl1 Hwl Hcont) as [Hij Hall].
        split; [lia |].
        replace (j - i)%nat with (S (j - S i)) by lia. simpl.
        constructor; [| exact Hall].
        by apply (digit_or_point_plain c i r0).
    + simpl in Hlen, Hskip. inversion Hskip as [| ? ? Hc Hrest]; subst.
      destruct (IH _ _ _ _ _ _ Hr Hl1 ltac:(lia) Hrest) as [Hij Hall].
      split; [lia |].
      replace (j - i)%nat with (S (j - S i)) by lia. simpl.
      constructor; [by apply continuation_plain | exact Hall].
Qed.

Lemma substring_bytes (s : string) :
  forall n m,
    list_ascii_of_string (String.substring n m s)
      = take m (drop n (list_ascii_of_string s)).
Proof.
  induction s as [| c s IH]; intros n m.
  - destruct n, m; reflexivity.
  - destruct n as [| n].
    + destruct m as [| m]; [reflexivity |]. simpl. f_equal. apply (IH 0%nat).
    + simpl. apply IH.
Qed.

Lemma slice_plain (s : string) (lo hi : nat) :
  Forall plain (list_ascii_of_string s) ->
  Forall plain (list_ascii_of_string (slice s lo hi)).
Proof.
  intros H. unfold slice. rewrite substring_bytes.
  by apply Forall_take, Forall_drop.
Qed.

Lemma split_loop_first (s : string) (rs : list (nat * Z)) (a b : string) :
  split_loop s rs = [a; b] ->
  exists l1 j r l2,
    rs = l1 ++ (j, r) :: l2
    /\ forallb digit_or_point l1 = true
    /\ a = strings.TrimSpace (slice s 0 j).
Proof.
  induction rs as [| [i r] rs IH]; simpl; [discriminate |].
  rewrite <- negb_orb.
  change (unicode.IsDigit r || (r =? 46)) with (digit_or_point (i, r)).
  destruct (digit_or_point (i, r)) eqn:Hd; simpl.
  - intros H. destruct (IH H) as (l1 & j & r' & l2 & -> & Hl1 & ->).
    exists ((i, r) :: l1), j, r', l2. simpl. rewrite Hd, Hl1. done.
  - intros [= <- <-]. exists [], i, r, rs. done.
Qed.

(** What [parseWithLocale] hands to [strconv.ParseFloat]: bytes that are
    ASCII digits, points, or parts of the encoding of a rune beyond
    ASCII. *)
Lemma numeric_part_plain (s a b : string) :
  split_loop s (range_string s) = [a; b] ->
  Forall plain (list_ascii_of_string a).
Proof.
  intros H. apply split_loop_first in H as (l1 & j & r & l2 & Hr & Hl1 & ->).
  unfold strings.TrimSpace. apply slice_plain.
  unfold slice. rewrite substring_bytes. simpl. rewrite Nat.sub_0_r.
  unfold range_string in Hr.
  destruct (range_plain s 0 0 l1 j r l2 Hr Hl1 ltac:(lia) ltac:(constructor))
    as [_ Hall].
  by rewrite Nat.sub_0_r in Hall.
Qed.

(** ** C4: the malformed-input error *)

(** The loop leaves [split] empty when every rune is a digit or a
    point, and with two elements otherwise. *)
Lemma split_loop_cases (s : string) (rs : list (nat * Z)) :
  (split_loop s rs = [] /\ forallb digit_or_point rs = true)
  \/ (exists a b, split_loop s rs = [a; b] /\
      forallb digit_or_point rs = false).
Proof.
  induction rs as [| [i r] rs IH]; simpl.
  - left. split; reflexivity.
  - unfold digit_or_point at 1 3. simpl. rewrite <- negb_orb.
    destruct (unicode.IsDigit r || (r =? 46)); simpl.
    + exact IH.
    + right. eexists _, _. split; reflexivity.
Qed.

Lemma ParseFloat_error (s : string) (f : spec_float) (err : error) :
  strconv.ParseFloat s = (f, Some err) ->
  exists e, err = NumError "ParseFloat" s e.
Proof.
  unfold strconv.ParseFloat. intros H.
  repeat case_match; simplify_eq; eauto.
Qed.

Lemma unknown_unit_not_malformed (unit : string) :
  ErrUnknownUnit unit <> ErrMalformedInput.
Proof.
  unfold ErrUnknownUnit, ErrMalformedInput. intros H.
  injection H as H. cbv in H. discriminate H.
Qed.

(** C4, as the code has it.  Under a supported locale the parser fails
    with the malformed-input error exactly when it finds no place to
    split the trimmed input, that is when the trimmed input consists of
    decimal digits and points only (the empty text included).  A text
    that starts with its unit is split, into an empty number and the
    unit, and fails later and otherwise. *)
Theorem malformed_iff_numeric (s : string) (locale : Locale) :
  supported locale ->
  snd (parseWithLocale s locale) = Some ErrMalformedInput
  <-> numeric (strings.TrimSpace s).
Proof.
  intros Hl. apply localizedUnits_supported in Hl as [units Hl].
  unfold parseWithLocale, numeric. rewrite Hl. cbv zeta.
  destruct (split_loop_cases (strings.TrimSpace s)
              (range_string (strings.TrimSpace s)))
    as [[-> Hall] | (a & b & -> & Hn)]; simpl.
  - split; [intros _; exact Hall | reflexivity].
  - split; [| intros Hall; congruence].
    intros H. exfalso.
    destruct (parseMap units !! strings.ToUpper b); simpl in H.
    + destruct (strconv.ParseFloat a) as [f [err|]] eqn:Hp; simpl in H;
        [| discriminate].
      apply ParseFloat_error in Hp as [e ->]. discriminate.
    + injection H as H. by apply (unknown_unit_not_malformed b).
Qed.

Lemma malformed_iff_numeric_witness :
  snd (parseWithLocale "" LocaleEN) = Some ErrMalformedInput
  /\ snd (parseWithLocale "1024" LocaleEN) = Some ErrMalformedInput
  /\ snd (parseWithLocale "   " LocaleRU) = Some ErrMalformedInput
  /\ ~ numeric (strings.TrimSpace "abc MB").
Proof.
  assert (Hen : supported LocaleEN) by (by left).
  assert (Hru : supported LocaleRU) by (by right).
  split; [| split; [| split]].
  - apply (proj2 (malformed_iff_numeric "" LocaleEN Hen)).
    vm_compute. reflexivity.
  - apply (proj2 (malformed_iff_numeric "1024" LocaleEN Hen)).
    vm_compute. reflexivity.
  - apply (proj2 (malformed_iff_numeric "   " LocaleRU Hru)).
    vm_compute. reflexivity.
  - intros H. apply (proj2 (malformed_iff_numeric "abc MB" LocaleEN Hen)) in H.
    vm_compute in H. discriminate H.
Defined.

(** C4 fails as the specification words it: a text without a number is
    split, with an empty numeric part, and goes on to the number parser,
    whose syntax error comes back instead of the malformed-input error. *)
Lemma pure_unit_is_not_malformed :
  split_loop "MB" (range_string "MB") = [""; "MB"]
  /\ parseWithLocale "MB" LocaleEN
     = (0, Some (NumError "ParseFloat" "" strconv.ErrSyntax))
  /\ snd (parseWithLocale "MB" LocaleEN) <> Some ErrMalformedInput.
Proof.
  split; [vm_compute; reflexivity |].
  split; [vm_compute; reflexivity | vm_compute; discriminate].
Qed.

(** ** C3: the fallback from the secondary to the primary spellings *)

(** What the loop of [init] makes of a registry, for any map [m] it
    runs over: only the parse map of the Russian entry changes, and it
    gains the entries of [m] whose key it did not have. *)
Lemma init_loop (reg : gmap string unitDefinitions) (m : gmap string Z) :
  (forall locale, locale <> LocaleRU ->
     map_fold init_step reg m !! locale = reg !! locale)
  /\ (reg !! LocaleRU = None -> map_fold init_step reg m !! LocaleRU = None)
  /\ (forall u, reg !! LocaleRU = Some u ->
      exists u', map_fold init_step reg m !! LocaleRU = Some u'
        /\ longUnits u' = longUnits u
        /\ shortUnits u' = shortUnits u
        /\ forall k, parseMap u' !! k =
             match parseMap u !! k with
             | Some v => Some v
             | None => m !! k
             end).
Proof.
  apply (map_fold_weak_ind (fun r (m : gmap string Z) =>
    (forall locale, locale <> LocaleRU -> r !! locale = reg !! locale)
    /\ (reg !! LocaleRU = None -> r !! LocaleRU = None)
    /\ (forall u, reg !! LocaleRU = Some u ->
        exists u', r !! LocaleRU = Some u'
          /\ longUnits u' = longUnits u
          /\ shortUnits u' = shortUnits u
          /\ forall k, parseMap u' !! k =
               match parseMap u !! k with
               | Some v => Some v
               | None => m !! k
               end))).
  - split; [done |]. split; [done |].
    intros u Hu. exists u. repeat split; try done.
    intros k. rewrite lookup_empty. by destruct (parseMap u !! k).
  - intros i x m' r Hi (Hother & Hnone & Hsome).
    unfold init_step.
    destruct (parseMap (r !!! LocaleRU) !! i) as [y|] eqn:Hri.
    + split; [done |]. split; [done |].
      intros u Hu. destruct (Hsome u Hu) as (u' & Hr & Hl & Hs & Hp).
      exists u'. repeat split; try done.
      intros k. rewrite Hp.
      rewrite (lookup_total_correct _ _ _ Hr), Hp, Hi in Hri.
      destruct (decide (i = k)) as [<- | Hne].
      * by destruct (parseMap u !! i).
      * by rewrite lookup_insert_ne.
    + split; [| split].
      * intros locale Hl. rewrite lookup_alter_ne by done. by apply Hother.
      * intros Hreg. rewrite lookup_alter_eq, (Hnone Hreg). done.
      * intros u Hu. destruct (Hsome u Hu) as (u' & Hr & Hl & Hs & Hp).
        rewrite lookup_alter_eq, Hr. simpl. eexists. split; [done |].
        simpl. repeat split; try done.
        intros k. rewrite (lookup_total_correct _ _ _ Hr), Hp, Hi in Hri.
        destruct (decide (i = k)) as [<- | Hne].
        -- rewrite !lookup_insert_eq.
           by destruct (parseMap u !! i).
        -- rewrite !lookup_insert_ne by done. apply Hp.
Qed.

Lemma declared_RU :
  localizedUnits0 !! LocaleRU = Some (localizedUnits0 !!! LocaleRU).
Proof. vm_compute. reflexivity. Qed.

Lemma declared_EN :
  localizedUnits0 !! LocaleEN = Some (localizedUnits0 !!! LocaleEN).
Proof. vm_compute. reflexivity. Qed.

(** No spelling is declared for both locales. *)
Lemma declared_disjoint :
  forallb (fun p => bool_decide
                      (parseMap (localizedUnits0 !!! LocaleRU) !! fst p = None))
    (map_to_list (parseMap (localizedUnits0 !!! LocaleEN))) = true.
Proof. vm_compute. reflexivity. Qed.

Lemma secondary_refused :
  forallb (fun p => bool_decide (refused_by_primary (fst p)))
    (map_to_list (parseMap (units_of LocaleRU))) = true.
Proof. vm_compute. reflexivity. Qed.

Lemma units_of_lookup (locale : Locale) (u : unitDefinitions) :
  localizedUnits !! locale = Some u -> units_of locale = u.
Proof. unfold units_of. by intros ->. Qed.

(** C3.  After [init] the parse table of the secondary locale is its
    declared table extended by the spellings of the primary one, so
    every primary spelling is accepted under the secondary locale with
    the same magnitude ("1 MB" parses to 1048576 there); the table of the
    primary locale is as declared, and a size written with any spelling
    that only the secondary table has ("1 КБ") is refused under the
    primary locale as an unknown unit. *)
Theorem fallback_is_one_way :
  (forall k,
     parseMap (units_of LocaleRU) !! k =
       match parseMap (localizedUnits0 !!! LocaleRU) !! k with
       | Some v => Some v
       | None => parseMap (localizedUnits0 !!! LocaleEN) !! k
       end)
  /\ (forall k v,
        parseMap (units_of LocaleEN) !! k = Some v ->
        parseMap (units_of LocaleRU) !! k = Some v)
  /\ parseWithLocale "1 MB" LocaleRU = (1048576, None)
  /\ units_of LocaleEN = localizedUnits0 !!! LocaleEN
  /\ (forall k v,
        parseMap (units_of LocaleRU) !! k = Some v ->
        parseMap (units_of LocaleEN) !! k = None ->
        parseWithLocale ("1 " +:+ k) LocaleEN = (0, Some (ErrUnknownUnit k)))
  /\ parseMap (units_of LocaleRU) !! "КБ" = Some KB
  /\ parseMap (units_of LocaleEN) !! "КБ" = None
  /\ parseWithLocale "1 КБ" LocaleEN = (0, Some (ErrUnknownUnit "КБ")).
Proof.
  destruct (init_loop localizedUnits0
              (parseMap (localizedUnits0 !!! LocaleEN)))
    as (Hother & _ & Hsome).
  destruct (Hsome _ declared_RU) as (u' & Hr & _ & _ & Hp).
  fold (init localizedUnits0) in Hr, Hother. fold localizedUnits in Hr, Hother.
  assert (Hen : units_of LocaleEN = localizedUnits0 !!! LocaleEN).
  { apply units_of_lookup. rewrite Hother by done. apply declared_EN. }
  rewrite (units_of_lookup _ _ Hr).
  split; [exact Hp |].
  split.
  { intros k v Hk. rewrite Hen in Hk. rewrite Hp.
    pose proof (map_forallb
      (fun p => bool_decide
                  (parseMap (localizedUnits0 !!! LocaleRU) !! fst p = None))
      (parseMap (localizedUnits0 !!! LocaleEN)) declared_disjoint k v Hk)
      as Hd.
    apply bool_decide_eq_true in Hd. simpl in Hd. by rewrite Hd. }
  split; [vm_compute; reflexivity |].
  split; [exact Hen |].
  split.
  { intros k v Hk.
    rewrite <- (units_of_lookup _ _ Hr) in Hk.
    pose proof (map_forallb
      (fun p => bool_decide (refused_by_primary (fst p)))
      (parseMap (units_of LocaleRU)) secondary_refused k v Hk) as Hd.
    exact (bool_decide_eq_true_1 (refused_by_primary k) Hd). }
  split; [rewrite <- (units_of_lookup _ _ Hr); vm_compute; reflexivity |].
  split; vm_compute; reflexivity.
Qed.

Lemma fallback_is_one_way_witness :
  parseMap (units_of LocaleRU) !! "MEGABYTES" = Some MB
  /\ parseWithLocale ("1 " +:+ "ГИГАБАЙТОВ") LocaleEN
     = (0, Some (ErrUnknownUnit "ГИГАБАЙТОВ")).
Proof.
  destruct fallback_is_one_way as (_ & H2 & _ & _ & H5 & _).
  split.
  - apply H2. vm_compute. reflexivity.
  - apply (H5 "ГИГАБАЙТОВ" GB); vm_compute; reflexivity.
Defined.

(** ** C2: the round trip of the short form *)

Lemma round_trips_all :
  forallb (fun L => forallb (round_trips L) magnitudes) [LocaleEN; LocaleRU]
    = true.
Proof. vm_compute. reflexivity. Qed.

(** C2.  Under the declared settings (format "%.2f", short units) and
    for each supported locale and each of the seven magnitudes, the text
    of the magnitude parses back, under the same locale, to the magnitude
    without an error. *)
Theorem short_form_round_trip (L : Locale) (M : ByteSize) :
  supported L ->
  In M magnitudes ->
  exists s,
    stringWithLocale globals0 M L = Returns s
    /\ parseWithLocale s L = (M, None).
Proof.
  intros HL HM.
  assert (Hrt : round_trips L M = true).
  { pose proof round_trips_all as Hall.
    rewrite forallb_forall in Hall.
    assert (HL' : In L [LocaleEN; LocaleRU])
      by (destruct HL as [-> | ->]; simpl; tauto).
    specialize (Hall L HL'). rewrite forallb_forall in Hall.
    exact (Hall M HM). }
  revert Hrt. unfold round_trips.
  generalize (stringWithLocale globals0 M L).
  intros [s | |] Hrt; [| discriminate Hrt | discriminate Hrt].
  exists s. split; [reflexivity |].
  exact (bool_decide_eq_true_1 (parseWithLocale s L = (M, None)) Hrt).
Qed.

Lemma short_form_round_trip_witness :
  exists s,
    stringWithLocale globals0 EB LocaleRU = Returns s
    /\ parseWithLocale s LocaleRU = (EB, None).
Proof.
  apply (short_form_round_trip LocaleRU EB).
  - right. reflexivity.
  - simpl. tauto.
Defined.

(** * Further properties *)

(** ** The switch that picks the unit *)

Lemma magnitude_values :
  B = 1 /\ KB = 1024 /\ MB = 1024 ^ 2 /\ GB = 1024 ^ 3 /\ TB = 1024 ^ 4
  /\ PB = 1024 ^ 5 /\ EB = 1024 ^ 6.
Proof. repeat split; reflexivity. Qed.

(** X1.  For every size of at least one byte that a [uint64] holds, the
    unit picked is at most the size and the next power of 1024 exceeds
    it: in exact arithmetic the value displayed lies in [1, 1024).  The
    unit grows with the size, and each magnitude is rendered in
    itself. *)
Theorem pick_unit_scale (b : ByteSize) :
  (1 <= b <= uint64_max -> pick_unit b <= b < 1024 * pick_unit b)
  /\ (forall b', b <= b' -> pick_unit b <= pick_unit b')
  /\ (In b magnitudes -> pick_unit b = b).
Proof.
  destruct magnitude_values as (HB & HKB & HMB & HGB & HTB & HPB & HEB).
  unfold uint64_max. split; [| split].
  - intros Hb. unfold pick_unit. repeat case_match; lia.
  - intros b' Hle. unfold pick_unit. repeat case_match; lia.
  - simpl. intros [<-|[<-|[<-|[<-|[<-|[<-|[<-|[]]]]]]]]; reflexivity.
Qed.

Lemma pick_unit_scale_witness :
  pick_unit 1536 <= 1536 < 1024 * pick_unit 1536
  /\ pick_unit 1000 <= pick_unit 2000
  /\ pick_unit GB = GB.
Proof.
  split; [| split].
  - apply (proj1 (pick_unit_scale 1536)). unfold uint64_max. lia.
  - apply (proj1 (proj2 (pick_unit_scale 1000))). lia.
  - apply (proj2 (proj2 (pick_unit_scale GB))). simpl. tauto.
Defined.

(** ** [getRussianPlural] at its edges *)

Lemma plural_forms_magnitude (M : ByteSize) :
  In M magnitudes -> exists f0 f1 f2, plural_forms M = [f0; f1; f2].
Proof.
  simpl. intros [<-|[<-|[<-|[<-|[<-|[<-|[<-|[]]]]]]]]; vm_compute; eauto.
Qed.

Lemma plural_forms_other (unit : ByteSize) :
  ~ In unit magnitudes -> plural_forms unit = [].
Proof.
  intros Hn. unfold plural_forms.
  destruct (Z.eqb_spec unit B) as [-> | _]; [simpl in Hn; tauto |].
  destruct (Z.eqb_spec unit KB) as [-> | _]; [simpl in Hn; tauto |].
  destruct (Z.eqb_spec unit MB) as [-> | _]; [simpl in Hn; tauto |].
  destruct (Z.eqb_spec unit GB) as [-> | _]; [simpl in Hn; tauto |].
  destruct (Z.eqb_spec unit TB) as [-> | _]; [simpl in Hn; tauto |].
  destruct (Z.eqb_spec unit PB) as [-> | _]; [simpl in Hn; tauto |].
  destruct (Z.eqb_spec unit EB) as [-> | _]; [simpl in Hn; tauto |].
  reflexivity.
Qed.

(** X2.  [getRussianPlural] has word forms for the seven magnitudes
    only: for any other unit the slice of forms stays nil and indexing it
    panics, whatever the value; for the seven magnitudes it returns. *)
Theorem getRussianPlural_panics_iff (value : spec_float) (unit : ByteSize) :
  getRussianPlural value unit = Panics <-> ~ In unit magnitudes.
Proof.
  split.
  - intros Hp HM. destruct (getRussianPlural_returns value unit HM) as [s Hs].
    congruence.
  - intros Hn. unfold getRussianPlural.
    rewrite (plural_forms_other unit Hn). cbv zeta.
    repeat case_match; reflexivity.
Qed.

Lemma getRussianPlural_panics_iff_witness :
  getRussianPlural (float64.of_Z 3) 1000 = Panics.
Proof.
  apply (proj2 (getRussianPlural_panics_iff (float64.of_Z 3) 1000)).
  simpl. intros H. repeat (destruct H as [H | H]; [discriminate H |]).
  exact H.
Defined.

(** X3.  The remainder of Go keeps the sign of the dividend, so a value
    whose integer part is negative never meets the cases 1 and 2, 3, 4
    nor the range 11..19: it gets the third ("many") form, minus one
    included. *)
Theorem getRussianPlural_negative (value : spec_float) (M : ByteSize) (n : Z) :
  float64.trunc value = Some n ->
  - 2 ^ 63 <= n < 0 ->
  getRussianPlural value M = index (plural_forms M) 2.
Proof.
  intros Ht Hn.
  unfold getRussianPlural, float64.to_int, float64.min_int64. rewrite Ht.
  replace ((- 2 ^ 63 <=? n) && (n <? 2 ^ 63)) with true
    by (symmetry; apply andb_true_iff; lia).
  cbv zeta.
  assert (H100 : Z.rem n 100 <= 0) by (apply Z.rem_nonpos; lia).
  assert (H10 : Z.rem n 10 <= 0) by (apply Z.rem_nonpos; lia).
  replace ((11 <=? Z.rem n 100) && (Z.rem n 100 <=? 19)) with false
    by (symmetry; apply andb_false_iff; lia).
  replace (Z.rem n 10 =? 1) with false by (symmetry; apply Z.eqb_neq; lia).
  replace (Z.rem n 10 =? 2) with false by (symmetry; apply Z.eqb_neq; lia).
  replace (Z.rem n 10 =? 3) with false by (symmetry; apply Z.eqb_neq; lia).
  replace (Z.rem n 10 =? 4) with false by (symmetry; apply Z.eqb_neq; lia).
  reflexivity.
Qed.

Lemma getRussianPlural_negative_witness :
  getRussianPlural (float64.of_Z (-1)) B = Returns "байтов".
Proof.
  rewrite (getRussianPlural_negative (float64.of_Z (-1)) B (-1)).
  - vm_compute. reflexivity.
  - vm_compute. reflexivity.
  - lia.
Defined.

(** ** [init] on any registry *)

(** A step for a key that the Russian parse map has changes nothing. *)
Lemma init_step_present (k : string) (v : Z)
    (reg : gmap string unitDefinitions) :
  is_Some (parseMap (reg !!! LocaleRU) !! k) -> init_step k v reg = reg.
Proof. intros [y Hy]. unfold init_step. by rewrite Hy. Qed.

Lemma init_fold_fixed (reg : gmap string unitDefinitions) (m : gmap string Z) :
  map_Forall (fun k _ => is_Some (parseMap (reg !!! LocaleRU) !! k)) m ->
  map_fold init_step reg m = reg.
Proof.
  apply (map_fold_weak_ind (fun r (m : gmap string Z) =>
    map_Forall (fun k _ => is_Some (parseMap (reg !!! LocaleRU) !! k)) m ->
    r = reg)).
  - done.
  - intros i x m' r Hi IH Hall.
    apply map_Forall_insert in Hall as [Hix Hall]; [| done].
    rewrite (IH Hall). by apply init_step_present.
Qed.

(** X4.  On any registry that has Russian tables, [init] leaves the
    tables of every other locale as they are, keeps the set of locales,
    keeps the long and short names of the Russian tables, and keeps
    every entry that the Russian parse map had: an English spelling is
    copied only where the Russian map has no entry for it. *)
Theorem init_keeps (reg : gmap string unitDefinitions) :
  is_Some (reg !! LocaleRU) ->
  (forall locale, locale <> LocaleRU -> init reg !! locale = reg !! locale)
  /\ dom (init reg) = dom reg
  /\ longUnits (init reg !!! LocaleRU) = longUnits (reg !!! LocaleRU)
  /\ shortUnits (init reg !!! LocaleRU) = shortUnits (reg !!! LocaleRU)
  /\ (forall k v,
        parseMap (reg !!! LocaleRU) !! k = Some v ->
        parseMap (init reg !!! LocaleRU) !! k = Some v).
Proof.
  intros [u Hru]. unfold init.
  destruct (init_loop reg (parseMap (reg !!! LocaleEN)))
    as (Hother & _ & Hsome).
  split; [exact Hother |].
  destruct (Hsome u Hru) as (u' & Hr & Hl & Hs & Hp).
  rewrite (lookup_total_correct _ _ _ Hr).
  rewrite (lookup_total_correct _ _ _ Hru).
  split; [| split; [exact Hl | split; [exact Hs |]]].
  - apply set_eq. intros locale. rewrite !elem_of_dom.
    destruct (decide (locale = LocaleRU)) as [-> | Hne].
    + rewrite Hr, Hru. split; eauto.
    + by rewrite Hother.
  - intros k v Hk. rewrite Hp, Hk. reflexivity.
Qed.

(** A registry whose Russian tables give "KB" a magnitude of their own:
    [init] does not replace it by the English one. *)
Lemma init_keeps_witness :
  parseMap (init (<[LocaleRU :=
      {| longUnits := ∅; shortUnits := ∅;
         parseMap := {["KB" := 1000]} |}]> localizedUnits0) !!! LocaleRU)
    !! "KB" = Some 1000.
Proof.
  assert (Hru : is_Some ((<[LocaleRU :=
      {| longUnits := ∅; shortUnits := ∅;
         parseMap := {["KB" := 1000]} |}]> localizedUnits0) !! LocaleRU))
    by (rewrite lookup_insert_eq; eauto).
  destruct (init_keeps _ Hru) as (_ & _ & _ & _ & H).
  apply H. vm_compute. reflexivity.
Defined.

(** X5.  [init] is idempotent on any registry that has Russian tables:
    after one run every English spelling has its Russian entry, so a
    second run finds nothing to copy. *)
Theorem init_idempotent (reg : gmap string unitDefinitions) :
  is_Some (reg !! LocaleRU) ->
  init (init reg) = init reg.
Proof.
  intros [u Hru].
  unfold init at 1. apply init_fold_fixed.
  destruct (init_loop reg (parseMap (reg !!! LocaleEN)))
    as (Hother & _ & Hsome).
  destruct (Hsome u Hru) as (u' & Hr & _ & _ & Hp).
  fold (init reg) in Hr, Hother.
  rewrite (lookup_total_correct _ _ _ Hr).
  assert (Hen : init reg !!! LocaleEN = reg !!! LocaleEN).
  { unfold lookup_total, map_lookup_total. by rewrite Hother. }
  rewrite Hen. intros k v Hk. simpl. rewrite Hp, Hk.
  destruct (parseMap u !! k); eauto.
Qed.

Lemma init_idempotent_witness : init localizedUnits = localizedUnits.
Proof.
  apply (init_idempotent localizedUnits0).
  rewrite declared_RU. eauto.
Defined.

(** ** The results of the parser *)

Lemma to_int_range (x : spec_float) : - 2 ^ 63 <= float64.to_int x < 2 ^ 63.
Proof.
  unfold float64.to_int, float64.min_int64.
  destruct (float64.trunc x) as [n|]; [| lia].
  destruct ((- 2 ^ 63 <=? n) && (n <? 2 ^ 63)) eqn:Hn; [| lia].
  apply andb_true_iff in Hn. lia.
Qed.

Lemma to_uint64_range (x : spec_float) : 0 <= float64.to_uint64 x < 2 ^ 64.
Proof.
  unfold float64.to_uint64.
  destruct (SFltb x (float64.of_Z (2 ^ 63))).
  - apply Z.mod_pos_bound. lia.
  - set (a := float64.to_int _ mod 2 ^ 64).
    assert (Ha : 0 <= a < 2 ^ 64) by (apply Z.mod_pos_bound; lia).
    split; [apply Z.lor_nonneg; lia |].
    destruct (Z.eq_dec (Z.lor a (2 ^ 63)) 0) as [-> | Hnz]; [lia |].
    apply Z.log2_lt_pow2; [pose proof (Z.lor_nonneg a (2 ^ 63)); lia |].
    rewrite Z.log2_lor by lia.
    assert (Z.log2 a < 64).
    { destruct (Z.eq_dec a 0) as [-> | Hz]; [simpl; lia |].
      apply Z.log2_lt_pow2; lia. }
    assert (Z.log2 (2 ^ 63) = 63) by (apply Z.log2_pow2; lia).
    lia.
Qed.

Lemma ParseFloat_cases (s : string) :
  (exists f, strconv.ParseFloat s = (f, None))
  \/ strconv.ParseFloat s
     = (float64.zero, Some (NumError "ParseFloat" s strconv.ErrSyntax))
  \/ (exists sg, strconv.ParseFloat s
        = (S754_infinity sg, Some (NumError "ParseFloat" s strconv.ErrRange))).
Proof.
  unfold strconv.ParseFloat.
  destruct (strconv.readFloat s false false 0 0) as [[mant frac]|];
    [| right; left; reflexivity].
  generalize (strconv.atof64 mant frac).
  intros [sg | sg | | sg m e]; eauto.
Qed.

(** The size and the error that the parser returns, by cases. *)
Lemma parse_error_kinds (s : string) (locale : Locale) :
  0 <= fst (parseWithLocale s locale) < 2 ^ 64
  /\ forall err,
       snd (parseWithLocale s locale) = Some err ->
       fst (parseWithLocale s locale) = 0
       /\ ((err = errorString ("unsupported locale: " +:+ locale)
            /\ ~ supported locale)
           \/ err = ErrMalformedInput
           \/ (exists unit, err = ErrUnknownUnit unit)
           \/ (exists num,
                 err = NumError "ParseFloat" num strconv.ErrSyntax
                 \/ err = NumError "ParseFloat" num strconv.ErrRange)).
Proof.
  unfold parseWithLocale.
  destruct (localizedUnits !! locale) as [units|] eqn:Hl.
  2:{ simpl. split; [lia |]. intros err [= <-]. split; [reflexivity |].
      left. split; [reflexivity |]. by apply localizedUnits_unsupported. }
  cbv zeta.
  destruct (negb _).
  { simpl. split; [lia |]. intros err [= <-]. split; [reflexivity |].
    right. left. reflexivity. }
  destruct (parseMap units !! _) as [unit|].
  2:{ simpl. split; [lia |]. intros err [= <-]. split; [reflexivity |].
      right. right. left. eexists. reflexivity. }
  match goal with
  | |- context [strconv.ParseFloat ?a] =>
      destruct (ParseFloat_cases a) as [[f Hp] | [Hp | [sg Hp]]]; rewrite Hp
  end.
  - simpl. split; [apply to_uint64_range |]. intros err Herr.
    discriminate Herr.
  - simpl. split; [lia |]. intros err [= <-]. split; [reflexivity |].
    right. right. right. eexists. left. reflexivity.
  - simpl. split; [lia |]. intros err [= <-]. split; [reflexivity |].
    right. right. right. eexists. right. reflexivity.
Qed.

(** X6.  Whatever the input and the locale, the size that
    [parseWithLocale] returns is a [uint64], it is zero whenever an error
    comes with it, and the error is one of four: the unsupported locale
    (named in the message, and only for a locale outside the registry),
    the malformed input, the unknown unit, or the [*strconv.NumError] of
    the number parser for the numeric part with a syntax or range
    error. *)
Theorem parse_errors (s : string) (locale : Locale) :
  0 <= fst (parseWithLocale s locale) < 2 ^ 64
  /\ forall err,
       snd (parseWithLocale s locale) = Some err ->
       fst (parseWithLocale s locale) = 0
       /\ ((err = errorString ("unsupported locale: " +:+ locale)
            /\ ~ supported locale)
           \/ err = ErrMalformedInput
           \/ (exists unit, err = ErrUnknownUnit unit)
           \/ (exists num,
                 err = NumError "ParseFloat" num strconv.ErrSyntax
                 \/ err = NumError "ParseFloat" num strconv.ErrRange)).
Proof. exact (parse_error_kinds s locale). Qed.

Lemma parse_errors_witness :
  fst (parseWithLocale "12 XB" LocaleEN) = 0.
Proof.
  destruct (parse_errors "12 XB" LocaleEN) as [_ H].
  destruct (H (ErrUnknownUnit "XB")) as [H0 _].
  - vm_compute. reflexivity.
  - exact H0.
Defined.

(** ** The layout of the formatted text *)

(** The call of the short form: the number as [format] alone renders
    it, directly followed by the unit symbol. *)
Lemma Sprintf_short (format num unitStr : string) (value : spec_float) :
  fmt.Sprintf format [fmt.Float64 value] = Returns num ->
  fmt.Sprintf (format +:+ "%s") [fmt.Float64 value; fmt.Str unitStr]
    = Returns (num +:+ unitStr).
Proof.
  unfold fmt.Sprintf. intros H.
  destruct (fmt.doPrintf fmt.Text format [fmt.Float64 value])
    as [[out [| o rest]]|] eqn:Hd; try discriminate.
  injection H as ->.
  apply (doPrintf_more _ [fmt.Str unitStr]) in Hd. simpl in Hd.
  rewrite (doPrintf_app _ "%s" _ _ _ _ Hd). simpl.
  by rewrite append_nil_r.
Qed.

(** X7.  In the short form the text is the number immediately followed
    by the short symbol that the tables give the unit, with nothing in
    between, and the package variables play no part in it: neither
    [CurrentLocale] nor the other two change the result. *)
Theorem short_form_layout (g g' : globals) (b : ByteSize)
    (format unit : string) (units : unitDefinitions) (unitSize : ByteSize)
    (num : string) :
  unit_size b unit units = inr unitSize ->
  fmt.Sprintf format [fmt.Float64 (display_value b unitSize)] = Returns num ->
  formatWithUnits g b format unit false units
    = Returns (num +:+ default EmptyString (shortUnits units !! unitSize))
  /\ formatWithUnits g' b format unit false units
     = formatWithUnits g b format unit false units.
Proof.
  intros Hu Hnum. split; [| reflexivity].
  unfold formatWithUnits. rewrite Hu.
  fold (display_value b unitSize). by apply Sprintf_short.
Qed.

Lemma short_form_layout_witness :
  formatWithUnits russian_long 1536 "%.1f" "kb" false (units_of LocaleRU)
    = Returns "1.5КБ".
Proof.
  refine (proj1 (short_form_layout russian_long russian_long 1536 "%.1f" "kb"
                   (units_of LocaleRU) KB "1.5" _ _));
    vm_compute; reflexivity.
Defined.

(** X8.  While [CurrentLocale] is the secondary locale, the long form
    for a unit that the tables resolve is the number, one space, and one
    of the three word forms that [getRussianPlural] has for that unit;
    the long names of the tables are not used. *)
Theorem russian_long_form (g : globals) (b : ByteSize) (format unit : string)
    (locale : Locale) (unitSize : ByteSize) (num : string) :
  CurrentLocale g = LocaleRU ->
  unit_size b unit (units_of locale) = inr unitSize ->
  fmt.Sprintf format [fmt.Float64 (display_value b unitSize)] = Returns num ->
  exists form,
    In form (plural_forms unitSize)
    /\ getRussianPlural (display_value b unitSize) unitSize = Returns form
    /\ formatWithLocale g b format unit true locale
       = Returns (num +:+ " " +:+ form).
Proof.
  intros Hg Hu Hnum.
  pose proof (unit_size_magnitude _ _ _ _ Hu) as HM.
  destruct (getRussianPlural_returns (display_value b unitSize) unitSize HM)
    as [form Hform].
  exists form. split; [| split; [exact Hform |]].
  - revert Hform. unfold getRussianPlural, index. cbv zeta.
    destruct (plural_forms_magnitude unitSize HM) as (f0 & f1 & f2 & ->).
    simpl. repeat case_match; intros [= <-]; simpl; tauto.
  - unfold formatWithLocale, formatWithUnits, long_label. rewrite Hu, Hg.
    fold (display_value b unitSize).
    change (String.eqb LocaleRU LocaleRU) with true. cbv iota.
    rewrite Hform. simpl. by apply Sprintf_long.
Qed.

Lemma russian_long_form_witness :
  exists form,
    In form (plural_forms MB)
    /\ getRussianPlural (display_value (3 * MB) MB) MB = Returns form
    /\ formatWithLocale russian_long (3 * MB) "%.0f" "" true LocaleEN
       = Returns ("3" +:+ " " +:+ form).
Proof.
  apply (russian_long_form russian_long (3 * MB) "%.0f" "" LocaleEN MB "3");
    vm_compute; reflexivity.
Defined.

(** ** [SetLocale] and the functions that read [CurrentLocale] *)

Lemma SetLocale_supported (v : Locale) (g : globals) :
  supported v ->
  SetLocale v g = {| CurrentLocale := v; LongUnits := LongUnits g;
                     Format := Format g |}.
Proof.
  intros Hv. apply localizedUnits_supported in Hv as [u Hu].
  unfold SetLocale. by rewrite Hu.
Qed.

Lemma SetLocale_unsupported (v : Locale) (g : globals) :
  ~ supported v -> SetLocale v g = g.
Proof.
  intros Hv. apply localizedUnits_unsupported in Hv.
  unfold SetLocale. by rewrite Hv.
Qed.

(** X9.  After [SetLocale v] the function [Parse] reads its input
    under [v] when [v] is supported and as before otherwise; of two calls
    in a row the later supported one decides, and a repeated call adds
    nothing. *)
Theorem SetLocale_then_Parse (v w : Locale) (g : globals) (s : string) :
  Parse (SetLocale v g) s
    = (if bool_decide (supported v) then parseWithLocale s v else Parse g s)
  /\ SetLocale v (SetLocale w g)
     = (if bool_decide (supported v) then SetLocale v g else SetLocale w g)
  /\ SetLocale v (SetLocale v g) = SetLocale v g.
Proof.
  case_bool_decide as Hv.
  - rewrite !(SetLocale_supported v) by done. repeat split.
    destruct (decide (supported w)) as [Hw | Hw].
    + by rewrite (SetLocale_supported w).
    + by rewrite (SetLocale_unsupported w).
  - rewrite !(SetLocale_unsupported v) by done. done.
Qed.

Lemma unknown_unit_not_unsupported (unit locale : string) :
  ErrUnknownUnit unit <> errorString ("unsupported locale: " +:+ locale).
Proof.
  unfold ErrUnknownUnit. intros H. injection H as H. cbv in H.
  discriminate H.
Qed.

Lemma malformed_not_unsupported (locale : string) :
  ErrMalformedInput <> errorString ("unsupported locale: " +:+ locale).
Proof.
  unfold ErrMalformedInput. intros H. injection H as H. cbv in H.
  discriminate H.
Qed.

Lemma fold_left_cons {A B : Type} (f : A -> B -> A) (x : B) (l : list B)
    (a : A) :
  fold_left f (x :: l) a = fold_left f l (f a x).
Proof. reflexivity. Qed.

Lemma set_locale_step_supported (v : Locale) (g : globals) :
  supported v ->
  set_locale_step g v = {| CurrentLocale := v; LongUnits := LongUnits g;
                           Format := Format g |}.
Proof. exact (SetLocale_supported v g). Qed.

Lemma set_locale_step_unsupported (v : Locale) (g : globals) :
  ~ supported v -> set_locale_step g v = g.
Proof. exact (SetLocale_unsupported v g). Qed.

(** What a sequence of calls of [SetLocale] keeps. *)
Lemma SetLocale_calls (calls : list Locale) :
  forall g0,
    supported (CurrentLocale g0) ->
    supported (CurrentLocale (fold_left set_locale_step calls g0))
    /\ LongUnits (fold_left set_locale_step calls g0) = LongUnits g0
    /\ Format (fold_left set_locale_step calls g0) = Format g0.
Proof.
  induction calls as [| v calls IH]; intros g0 Hg0; [done |].
  rewrite fold_left_cons.
  destruct (decide (supported v)) as [Hv | Hv].
  - rewrite (set_locale_step_supported v g0 Hv).
    exact (IH {| CurrentLocale := v; LongUnits := LongUnits g0;
                 Format := Format g0 |} Hv).
  - rewrite (set_locale_step_unsupported v g0 Hv). by apply IH.
Qed.

Lemma supported_no_locale_error (s : string) (locale : Locale) :
  supported locale ->
  snd (parseWithLocale s locale)
    <> Some (errorString ("unsupported locale: " +:+ locale)).
Proof.
  intros Hs H.
  destruct (parse_error_kinds s locale) as [_ Hk].
  destruct (Hk _ H) as [_ [[_ Hn] | [Hm | [[u Hu] | [num [Hn | Hn]]]]]].
  - contradiction.
  - symmetry in Hm. by apply malformed_not_unsupported in Hm.
  - symmetry in Hu. by apply unknown_unit_not_unsupported in Hu.
  - discriminate Hn.
  - discriminate Hn.
Qed.

(** X10.  Starting from the declared settings, no sequence of calls of
    [SetLocale] leaves [CurrentLocale] outside the registry or touches
    the other two variables; [Parse] therefore never reports an
    unsupported locale. *)
Theorem SetLocale_invariant (calls : list Locale) (s : string) :
  supported
    (CurrentLocale (fold_left set_locale_step calls globals0))
  /\ LongUnits (fold_left set_locale_step calls globals0)
     = LongUnits globals0
  /\ Format (fold_left set_locale_step calls globals0)
     = Format globals0
  /\ snd (Parse (fold_left set_locale_step calls globals0) s)
     <> Some (errorString
               ("unsupported locale: " +:+
                CurrentLocale
                  (fold_left set_locale_step calls globals0))).
Proof.
  destruct (SetLocale_calls calls globals0 (or_introl eq_refl))
    as (Hs & Hl & Hf).
  split; [exact Hs |]. split; [exact Hl |]. split; [exact Hf |].
  unfold Parse. by apply supported_no_locale_error.
Qed.

Lemma SetLocale_invariant_witness :
  supported (CurrentLocale
    (fold_left set_locale_step ["ru"; "de"; ""] globals0)).
Proof.
  exact (proj1 (SetLocale_invariant ["ru"; "de"; ""] "1 KB")).
Defined.

(** ** The names that the formatter writes and the parse tables *)

(** X11.  For each supported locale and each magnitude, the short
    symbol and the long name of the tables are spellings of the same
    locale's parse table, for that magnitude; so are the English plural
    in "s" and the first and third Russian word forms.  The second
    Russian form (for 2, 3 and 4) is a spelling of no table. *)
Theorem emitted_names (L : Locale) (M : ByteSize) :
  supported L ->
  In M magnitudes ->
  parseMap (units_of L)
    !! strings.ToUpper (default EmptyString (shortUnits (units_of L) !! M))
    = Some M
  /\ parseMap (units_of L)
       !! strings.ToUpper (default EmptyString (longUnits (units_of L) !! M))
     = Some M
  /\ parseMap (units_of LocaleEN)
       !! strings.ToUpper
            (default EmptyString (longUnits (units_of LocaleEN) !! M) +:+ "s")
     = Some M
  /\ parseMap (units_of LocaleRU)
       !! strings.ToUpper (nth 0 (plural_forms M) EmptyString) = Some M
  /\ parseMap (units_of LocaleRU)
       !! strings.ToUpper (nth 2 (plural_forms M) EmptyString) = Some M
  /\ parseMap (units_of LocaleRU)
       !! strings.ToUpper (nth 1 (plural_forms M) EmptyString) = None
  /\ parseMap (units_of LocaleEN)
       !! strings.ToUpper (nth 1 (plural_forms M) EmptyString) = None.
Proof.
  intros HL HM. simpl in HM.
  destruct HL as [-> | ->];
    destruct HM as [<-|[<-|[<-|[<-|[<-|[<-|[<-|[]]]]]]]];
    vm_compute; repeat split.
Qed.

Lemma emitted_names_witness :
  parseMap (units_of LocaleRU) !! strings.ToUpper "гигабайта" = None.
Proof.
  destruct (emitted_names LocaleRU GB) as (_ & _ & _ & _ & _ & H & _).
  - right. reflexivity.
  - simpl. tauto.
  - exact H.
Defined.

Lemma long_round_trip_sound (g : globals) (b : ByteSize) :
  long_round_trip g b = true ->
  exists s, ByteSize_String g b = Returns s /\ Parse g s = (b, None).
Proof.
  unfold long_round_trip. generalize (ByteSize_String g b).
  intros [s | |] H; [| discriminate H | discriminate H].
  exists s. split; [reflexivity |].
  exact (bool_decide_eq_true_1 (Parse g s = (b, None)) H).
Qed.

Lemma long_refused_sound (g : globals) (b : ByteSize) (unit : string) :
  long_refused g b unit = true ->
  exists s,
    ByteSize_String g b = Returns s
    /\ Parse g s = (0, Some (ErrUnknownUnit unit)).
Proof.
  unfold long_refused. generalize (ByteSize_String g b).
  intros [s | |] H; [| discriminate H | discriminate H].
  exists s. split; [reflexivity |].
  exact (bool_decide_eq_true_1
           (Parse g s = (0, Some (ErrUnknownUnit unit))) H).
Qed.

Lemma russian_round_trips :
  forallb (fun M => forallb (fun k => long_round_trip russian_long (k * M))
                      [1; 5; 11]) magnitudes = true.
Proof. vm_compute. reflexivity. Qed.

Lemma english_round_trips :
  forallb (fun M => forallb (fun k => long_round_trip english_long (k * M))
                      [1; 2; 5]) magnitudes = true.
Proof. vm_compute. reflexivity. Qed.

Lemma russian_refusals :
  forallb (fun M => forallb (fun k =>
                      long_refused russian_long (k * M)
                        (nth 1 (plural_forms M) EmptyString))
                      [2; 3; 4]) magnitudes = true.
Proof. vm_compute. reflexivity. Qed.

Lemma forallb2_In {A B : Type} (f : A -> B -> bool) (la : list A)
    (lb : list B) :
  forallb (fun a => forallb (f a) lb) la = true ->
  forall a b, In a la -> In b lb -> f a b = true.
Proof.
  intros H a b Ha Hb. rewrite forallb_forall in H.
  specialize (H a Ha). rewrite forallb_forall in H. exact (H b Hb).
Qed.

(** X12.  In the long form the text of a size does not always parse
    back.  Under the Russian settings 1, 5 or 11 units of any magnitude
    come back as written, but 2, 3 or 4 units are written with the second
    word form, which the parser refuses as an unknown unit; under the
    English settings 1, 2 or 5 units come back. *)
Theorem long_form_round_trip (M k : Z) :
  In M magnitudes ->
  (In k [1; 5; 11] ->
     exists s, ByteSize_String russian_long (k * M) = Returns s
               /\ Parse russian_long s = (k * M, None))
  /\ (In k [2; 3; 4] ->
        exists s, ByteSize_String russian_long (k * M) = Returns s
                  /\ Parse russian_long s
                     = (0, Some (ErrUnknownUnit
                                   (nth 1 (plural_forms M) EmptyString))))
  /\ (In k [1; 2; 5] ->
        exists s, ByteSize_String english_long (k * M) = Returns s
                  /\ Parse english_long s = (k * M, None)).
Proof.
  intros HM. split; [| split]; intros Hk.
  - apply long_round_trip_sound.
    exact (forallb2_In (fun M k => long_round_trip russian_long (k * M))
             magnitudes [1; 5; 11] russian_round_trips M k HM Hk).
  - apply long_refused_sound.
    exact (forallb2_In
             (fun M k => long_refused russian_long (k * M)
                           (nth 1 (plural_forms M) EmptyString))
             magnitudes [2; 3; 4] russian_refusals M k HM Hk).
  - apply long_round_trip_sound.
    exact (forallb2_In (fun M k => long_round_trip english_long (k * M))
             magnitudes [1; 2; 5] english_round_trips M k HM Hk).
Qed.

Lemma long_form_round_trip_witness :
  exists s, ByteSize_String russian_long (3 * GB) = Returns s
            /\ Parse russian_long s
               = (0, Some (ErrUnknownUnit
                             (nth 1 (plural_forms GB) EmptyString))).
Proof.
  destruct (long_form_round_trip GB 3) as (_ & H & _).
  - simpl. tauto.
  - apply H. simpl. tauto.
Defined.

(** ** The decimal comma *)

Lemma decode_ascii (c : ascii) (s : string) :
  utf8.byte_val c < 0x80 ->
  utf8.DecodeRuneInString (String c s) = (utf8.byte_val c, 1%nat).
Proof.
  intros Hc. unfold utf8.DecodeRuneInString.
  change (String.length (String c s)) with (S (String.length s)).
  change (utf8.at_index (String c s) 0) with (utf8.byte_val c).
  change (S (String.length s) <? 1)%nat with false. cbv iota.
  unfold utf8.RuneSelf.
  destruct (Z.ltb_spec (utf8.byte_val c) 128); [reflexivity | lia].
Qed.

Lemma range_from_ascii (c : ascii) (s : string) (i : nat) :
  utf8.byte_val c < 0x80 ->
  range_from (String c s) i 0 = (i, utf8.byte_val c) :: range_from s (S i) 0.
Proof.
  intros Hc. simpl. by rewrite (decode_ascii c s Hc).
Qed.

(** The loop of the parser runs over leading ASCII digits and points. *)
Lemma split_loop_digits (t x : string) (d : string) :
  forall i,
    digits_and_points d ->
    split_loop t (range_from (d +:+ x) i 0)
      = split_loop t (range_from x (i + String.length d) 0).
Proof.
  induction d as [| c d IH]; intros i Hd.
  - simpl. by rewrite Nat.add_0_r.
  - inversion Hd as [| ? ? Hc Hd']; subst.
    rewrite append_cons, range_from_ascii by lia.
    simpl split_loop. rewrite <- negb_orb.
    replace (unicode.IsDigit (utf8.byte_val c) || (utf8.byte_val c =? 46))
      with true.
    2:{ symmetry. unfold unicode.IsDigit, unicode.MaxLatin1.
        destruct Hc as [Hc | Hc].
        - destruct (Z.leb_spec (utf8.byte_val c) 255); [| lia].
          apply orb_true_iff. left. apply andb_true_iff. lia.
        - apply orb_true_iff. right. lia. }
    simpl negb. cbv iota. rewrite (IH (S i) Hd').
    simpl String.length. by rewrite Nat.add_succ_r.
Qed.

Lemma substring_all (x : string) :
  String.substring 0 (String.length x) x = x.
Proof. induction x as [| c x IH]; simpl; [reflexivity | by rewrite IH]. Qed.

Lemma length_append (d x : string) :
  String.length (d +:+ x) = (String.length d + String.length x)%nat.
Proof.
  induction d as [| c d IH]; [reflexivity |].
  rewrite append_cons. simpl. by rewrite IH.
Qed.

(** What follows a prefix: [s[len(d):]]. *)
Lemma slice_after_prefix (d x : string) :
  slice (d +:+ x) (String.length d) (String.length (d +:+ x)) = x.
Proof.
  unfold slice. rewrite length_append.
  replace (String.length d + String.length x - String.length d)%nat
    with (String.length x) by lia.
  induction d as [| c d IH]; [apply substring_all |].
  rewrite append_cons. simpl. exact IH.
Qed.

Lemma range_from_indices (s : string) :
  forall i skip p, In p (range_from s i skip) -> (i <= fst p)%nat.
Proof.
  induction s as [| c s IH]; intros i skip p Hp; [destruct Hp |].
  simpl in Hp. destruct skip as [| k].
  - destruct (utf8.DecodeRuneInString (String c s)) as [r w].
    destruct Hp as [<- | Hp]; [simpl; lia |].
    apply IH in Hp. lia.
  - apply IH in Hp. lia.
Qed.

Lemma trailing_bound (rs : list (nat * Z)) (n i : nat) :
  (forall p, In p rs -> (i <= fst p)%nat) ->
  (i <= n)%nat ->
  (i <= strings.trailing rs n)%nat.
Proof.
  induction rs as [| [j r] rs IH]; intros Hrs Hn; [exact Hn |].
  change (strings.trailing ((j, r) :: rs) n)
    with (if forallb (fun p => unicode.IsSpace (snd p)) ((j, r) :: rs)
          then j else strings.trailing rs n).
  destruct (forallb _ ((j, r) :: rs)).
  - apply (Hrs (j, r)). by left.
  - apply IH; [| exact Hn]. intros p Hp. apply Hrs. by right.
Qed.

(** [TrimSpace] keeps a leading comma. *)
Lemma TrimSpace_comma (rest : string) :
  exists y, strings.TrimSpace (String "," rest) = String "," y.
Proof.
  unfold strings.TrimSpace, range_string.
  rewrite range_from_ascii by (vm_compute; reflexivity).
  change (utf8.byte_val ",") with 44.
  simpl strings.leading.
  assert (Hhi : (1 <= strings.trailing ((0%nat, 44%Z) :: range_from rest 1 0)
                        (String.length (String "," rest)))%nat).
  { change (strings.trailing ((0%nat, 44%Z) :: range_from rest 1 0)
              (String.length (String "," rest)))
      with (strings.trailing (range_from rest 1 0)
              (String.length (String "," rest))).
    apply trailing_bound; [| simpl; lia].
    intros p Hp. by apply range_from_indices in Hp. }
  destruct (strings.trailing _ _) as [| hi]; [lia |].
  unfold slice. simpl. eauto.
Qed.

(** [strings.ToUpper] keeps a leading comma. *)
Lemma ToUpper_comma (y : string) :
  exists z, strings.ToUpper (String "," y) = String "," z.
Proof.
  unfold strings.ToUpper, range_string.
  rewrite range_from_ascii by (vm_compute; reflexivity).
  change (utf8.byte_val ",") with 44.
  simpl List.map. unfold strings.concat_strings. simpl fold_right.
  change (utf8.EncodeRune (unicode.ToUpper 44)) with ","%string.
  rewrite append_cons. eauto.
Qed.

Lemma no_comma_keys_en :
  forallb no_comma (map_to_list (parseMap (units_of LocaleEN))) = true.
Proof. vm_compute. reflexivity. Qed.

Lemma no_comma_keys_ru :
  forallb no_comma (map_to_list (parseMap (units_of LocaleRU))) = true.
Proof. vm_compute. reflexivity. Qed.

Lemma no_key_with_comma (locale : Locale) (z : string) :
  supported locale ->
  parseMap (units_of locale) !! String "," z = None.
Proof.
  intros Hl.
  destruct (parseMap (units_of locale) !! String "," z) as [v|] eqn:Hk;
    [| reflexivity].
  exfalso.
  assert (Hc : no_comma (String "," z, v) = true).
  { destruct Hl as [-> | ->].
    - exact (map_forallb no_comma (parseMap (units_of LocaleEN))
               no_comma_keys_en _ _ Hk).
    - exact (map_forallb no_comma (parseMap (units_of LocaleRU))
               no_comma_keys_ru _ _ Hk). }
  discriminate Hc.
Qed.

(** X13.  A decimal comma is not accepted: under a supported locale,
    an input that after trimming is a run of ASCII digits and points
    (possibly empty) followed by a comma, and then anything, is split at
    the comma and refused with the unknown-unit error. *)
Theorem decimal_comma_refused (s d rest : string) (locale : Locale) :
  supported locale ->
  digits_and_points d ->
  strings.TrimSpace s = d +:+ String "," rest ->
  parseWithLocale s locale
    = (0, Some (ErrUnknownUnit (strings.TrimSpace (String "," rest)))).
Proof.
  intros Hl Hd Ht.
  pose proof (no_key_with_comma locale) as Hkeys.
  unfold parseWithLocale.
  pose proof Hl as Hl'. apply localizedUnits_supported in Hl' as [units Hu].
  rewrite Hu. cbv zeta. rewrite Ht.
  unfold range_string. rewrite (split_loop_digits _ _ d 0 Hd).
  rewrite range_from_ascii by (vm_compute; reflexivity).
  simpl split_loop. change (unicode.IsDigit (utf8.byte_val ",")) with false.
  change (utf8.byte_val "," =? 46) with false. simpl negb. cbv iota.
  rewrite slice_after_prefix.
  destruct (TrimSpace_comma rest) as [y ->].
  destruct (ToUpper_comma y) as [z Hz].
  simpl length. simpl negb. cbv iota. simpl nth. rewrite Hz.
  rewrite <- (units_of_lookup locale units Hu).
  rewrite (Hkeys z Hl). reflexivity.
Qed.

Lemma decimal_comma_refused_witness :
  parseWithLocale "2,5 ГБ" LocaleRU
    = (0, Some (ErrUnknownUnit (strings.TrimSpace ",5 ГБ"))).
Proof.
  apply (decimal_comma_refused "2,5 ГБ" "2" "5 ГБ" LocaleRU).
  - right. reflexivity.
  - constructor; [| constructor]. left. vm_compute. split; discriminate.
  - vm_compute. reflexivity.
Defined.

(** ** How an input is cut into number and unit *)

Lemma slice_prefix (d x : string) :
  slice (d +:+ x) 0 (String.length d) = d.
Proof.
  unfold slice. rewrite Nat.sub_0_r.
  induction d as [| c d IH]; [by destruct x |].
  rewrite append_cons. simpl. by rewrite IH.
Qed.

Lemma digit_not_space (c : ascii) :
  48 <= utf8.byte_val c <= 57 \/ utf8.byte_val c = 46 ->
  unicode.IsSpace (utf8.byte_val c) = false.
Proof.
  intros Hc. unfold unicode.IsSpace, unicode.MaxLatin1.
  replace ((0 <=? utf8.byte_val c) && (utf8.byte_val c <=? 255)) with true
    by (symmetry; apply andb_true_iff; lia).
  repeat (apply orb_false_iff; split); try apply andb_false_iff; lia.
Qed.

Lemma leading_digits (d : string) (i : nat) :
  digits_and_points d ->
  strings.leading (range_from d i 0) (i + String.length d) = i.
Proof.
  intros Hd. destruct d as [| c d]; [simpl; lia |].
  inversion Hd as [| ? ? Hc _]; subst.
  rewrite range_from_ascii by lia. simpl strings.leading.
  by rewrite (digit_not_space c Hc).
Qed.

Lemma trailing_digits (d : string) :
  forall i n,
    digits_and_points d ->
    strings.trailing (range_from d i 0) n = n.
Proof.
  induction d as [| c d IH]; intros i n Hd; [reflexivity |].
  inversion Hd as [| ? ? Hc Hd']; subst.
  rewrite range_from_ascii by lia.
  change (strings.trailing ((i, utf8.byte_val c) :: range_from d (S i) 0) n)
    with (if unicode.IsSpace (utf8.byte_val c)
             && forallb (fun p => unicode.IsSpace (snd p))
                  (range_from d (S i) 0)
          then i else strings.trailing (range_from d (S i) 0) n).
  rewrite (digit_not_space c Hc). simpl. by apply IH.
Qed.

(** A text of digits and points has no white space to trim. *)
Lemma TrimSpace_digits (d : string) :
  digits_and_points d -> strings.TrimSpace d = d.
Proof.
  intros Hd. unfold strings.TrimSpace, range_string.
  rewrite (trailing_digits d 0 _ Hd).
  pose proof (leading_digits d 0 Hd) as Hl. simpl in Hl. rewrite Hl.
  unfold slice. rewrite Nat.sub_0_r. apply substring_all.
Qed.

(** X14.  Under a supported locale, an input that after trimming is a
    run [d] of ASCII digits and points followed by a text [x] whose first
    rune is neither a digit nor a point is read as the number [d] and the
    unit [x] without its leading white space: the unit is looked up
    first, in upper case, and an unknown one is reported as written; then
    [d] goes to the number parser as it stands, and its error comes back
    unchanged; otherwise the size is the product, converted to
    [uint64]. *)
Theorem parse_number_unit (s d x : string) (locale : Locale)
    (units : unitDefinitions) :
  localizedUnits !! locale = Some units ->
  digits_and_points d ->
  x <> EmptyString ->
  digit_or_point (0%nat, fst (utf8.DecodeRuneInString x)) = false ->
  strings.TrimSpace s = d +:+ x ->
  parseWithLocale s locale =
    match parseMap units !! strings.ToUpper (strings.TrimSpace x) with
    | None => (0, Some (ErrUnknownUnit (strings.TrimSpace x)))
    | Some unit =>
        match strconv.ParseFloat d with
        | (_, Some err) => (0, Some err)
        | (value, None) =>
            (float64.to_uint64 (float64.mul value (float64.of_Z unit)), None)
        end
    end.
Proof.
  intros Hu Hd Hx Hr Ht.
  unfold parseWithLocale. rewrite Hu. cbv zeta. rewrite Ht.
  unfold range_string. rewrite (split_loop_digits _ _ d 0 Hd).
  destruct x as [| c rest]; [exfalso; apply Hx; reflexivity |].
  simpl range_from.
  destruct (utf8.DecodeRuneInString (String c rest)) as [r w].
  unfold digit_or_point in Hr. simpl in Hr.
  simpl split_loop. rewrite <- negb_orb, Hr. simpl negb. cbv iota.
  rewrite slice_prefix, slice_after_prefix, (TrimSpace_digits d Hd).
  reflexivity.
Qed.

Lemma parse_number_unit_witness :
  parseWithLocale " 1.5КБ " LocaleRU = (1536, None).
Proof.
  rewrite (parse_number_unit " 1.5КБ " "1.5" "КБ" LocaleRU
             (units_of LocaleRU)).
  - vm_compute. reflexivity.
  - vm_compute. reflexivity.
  - unfold digits_and_points. simpl list_ascii_of_string.
    repeat (constructor;
            [vm_compute;
             first [left; split; discriminate | right; reflexivity] |]).
    constructor.
  - discriminate.
  - vm_compute. reflexivity.
  - vm_compute. reflexivity.
Defined.
